(** * The Deno plugin for esbuild: resolve and load hooks

    A shallow embedding of [denoPlugin] (the esbuild plugin that resolves
    and loads modules through [@deno/loader]) and of the loader's
    enumerations, followed by the properties of the resolution-and-loading
    bridge.

    Conventions of the embedding.
    - A JavaScript string is a [string]: a sequence of code units, here
      restricted to the one-byte range [0..255].
    - [undefined] in a position of type [T | undefined] is [None].
    - A computation that may throw yields a [Completion]; the thrown value
      is kept, since the hooks inspect and rethrow it.
    - The asynchronous calls into the loader ([loader.resolve],
      [loader.load]) are the operations of a small free monad, [Hook]: a
      hook is a tree whose nodes are the engine calls it awaits.  An
      interpreter runs a hook against any engine and logs the calls.
    - What the plugin imports from outside the repository ([isBuiltin] of
      [node:module], [fromFileUrl]/[toFileUrl] of [@std/path],
      [TextDecoder], [Deno.env.get]) is the class [Host].
    - Regular expressions are syntax trees run by the backtracking
      matcher of the language specification; [new RegExp] parses the
      sources [externalToRegex] builds.

    The definitions come first; the properties follow, from the pure
    helpers to the two hooks. *)

From stdpp Require Import gmap strings list.
From Stdlib Require Import Ascii String ZArith Lia Bool.

Set Default Proof Using "Type".

(** String concatenation computes under [simpl], as list concatenation
    does. *)
#[global] Arguments String.append !_ _ / : simpl nomatch.

(* ================================================================= *)
(** ** JavaScript values the hooks handle *)

(** A thrown value: an instance of [Error] (with its [name] and
    [message]), or any other value ([err instanceof Error] is false). *)
Inductive Thrown : Type :=
| ErrorObject (name message : string)
| OtherValue (description : string).

Inductive Completion (A : Type) : Type :=
| Normal (a : A)
| Throw (e : Thrown).
Arguments Normal {A} a.
Arguments Throw {A} e.

Definition Completion_bind {A B : Type}
    (c : Completion A) (f : A -> Completion B) : Completion B :=
  match c with
  | Normal a => f a
  | Throw e => Throw e
  end.

(** The double-quote code unit, and the one-character string holding it. *)
Definition dquote_char : ascii := ascii_of_nat 34.
Definition dquote : string := String dquote_char EmptyString.

(** [String.prototype.startsWith(search)] at position 0: the code units
    of [search] are compared with those of [s], one by one. *)
Fixpoint startsWith (s search : string) {struct search} : bool :=
  match search with
  | EmptyString => true
  | String c search' =>
      match s with
      | String d s' => Ascii.eqb d c && startsWith s' search'
      | EmptyString => false
      end
  end.

(** [String.prototype.endsWith(search)]: with [end] the length of [s],
    [start = end - searchLength]; false when [start] is negative, else
    the comparison of the code units from [start]. *)
Definition endsWith (s search : string) : bool :=
  (String.length search <=? String.length s)%nat
  && String.eqb
       (String.substring (String.length s - String.length search)
                         (String.length search) s)
       search.

(* ================================================================= *)
(** ** Enumerations of [@deno/loader] (vendor [mod.ts]) *)

(** [enum MediaType]: at run time a number; the loader hands the plugin
    whatever number the engine produced, so the mapper is modelled on
    [Z] and the enumerators are constants. *)
Module MediaType.
Definition JavaScript : Z := 0.
Definition Jsx : Z := 1.
Definition Mjs : Z := 2.
Definition Cjs : Z := 3.
Definition TypeScript : Z := 4.
Definition Mts : Z := 5.
Definition Cts : Z := 6.
Definition Dts : Z := 7.
Definition Dmts : Z := 8.
Definition Dcts : Z := 9.
Definition Tsx : Z := 10.
Definition Css : Z := 11.
Definition Json : Z := 12.
Definition Html : Z := 13.
Definition Sql : Z := 14.
Definition Wasm : Z := 15.
Definition SourceMap : Z := 16.
Definition Unknown : Z := 17.
End MediaType.

(** [enum ResolutionMode]. *)
Inductive ResolutionMode : Type := ModeImport | ModeRequire.

(** [enum RequestedModuleType]. *)
Inductive RequestedModuleType : Type := Default | Json | Text | Bytes.

Definition RequestedModuleType_eqb (a b : RequestedModuleType) : bool :=
  match a, b with
  | Default, Default | Json, Json | Text, Text | Bytes, Bytes => true
  | _, _ => false
  end.

(** [type LoadResponse = ModuleLoadResponse | ExternalLoadResponse]. *)
Inductive LoadResponse : Type :=
| ExternalLoadResponse (specifier : string)
| ModuleLoadResponse (specifier : string) (mediaType : Z)
                     (code : list Byte.byte).

(* ================================================================= *)
(** ** Types of esbuild's plugin API *)

(** [type Loader], the content modes esbuild knows. *)
Inductive Loader : Type :=
| L_base64 | L_binary | L_copy | L_css | L_dataurl | L_default | L_empty
| L_file | L_js | L_json | L_jsx | L_local_css | L_text | L_ts | L_tsx.

(** [type ImportKind]. *)
Inductive ImportKind : Type :=
| entry_point | import_statement | require_call | dynamic_import
| require_resolve | import_rule | composes_from | url_token.

Record OnResolveArgs : Type := {
  resolve_path : string;
  resolve_importer : string;
  resolve_namespace : string;
  resolve_kind : ImportKind;
}.

(** The two object shapes [onResolve] returns: [{path, external: true}]
    and [{path, namespace}]; a field that is not written, or written as
    [undefined], is [None]. *)
Record OnResolveResult : Type := {
  result_path : string;
  result_external : option bool;
  result_namespace : option string;
}.

Record OnLoadArgs : Type := {
  load_path : string;
  load_namespace : string;
  load_with : gmap string string;
}.

(** [contents: string | Uint8Array]. *)
Inductive Contents : Type :=
| ContentsText (text : string)
| ContentsBytes (bytes : list Byte.byte).

Record OnLoadResult : Type := {
  contents : Contents;
  loader : Loader;
}.

(* ================================================================= *)
(** ** Pure helpers of the plugin *)

(** [mediaToLoader], a [switch] over the media type with a [default]
    arm. *)
Definition mediaToLoader (type : Z) : Loader :=
  match type with
  | 1 (* Jsx *) => L_jsx
  | 0 (* JavaScript *) | 2 (* Mjs *) | 3 (* Cjs *) => L_js
  | 4 (* TypeScript *) | 5 (* Mts *) | 8 (* Dmts *) | 9 (* Dcts *) => L_ts
  | 10 (* Tsx *) => L_tsx
  | 11 (* Css *) => L_css
  | 12 (* Json *) => L_json
  | 13 (* Html *) => L_default
  | 14 (* Sql *) => L_default
  | 15 (* Wasm *) => L_binary
  | 16 (* SourceMap *) => L_json
  | 17 (* Unknown *) => L_default
  | _ => L_default
  end%Z.

(** [getModuleType]: [withArgs.type] is the lookup of key ["type"] in the
    import-attribute bag, [undefined] when the key is missing. *)
Definition getModuleType (file : string) (withArgs : gmap string string)
    : RequestedModuleType :=
  match withArgs !! "type" with
  | Some "text" => Text
  | Some "bytes" => Bytes
  | Some "json" => Json
  | _ => if endsWith file ".json" then Json else Default
  end.

(* ================================================================= *)
(** ** Regular expressions

    The patterns of the plugin, as syntax trees, and the backtracking
    matcher of the language specification: a matcher takes a state and a
    continuation and tries its alternatives in priority order. *)

Inductive ClassItem : Type :=
| ItemChar (c : ascii)
| ItemWord.                        (* the class escape \w *)

Inductive CharSet : Type :=
| AnyChar                          (* . (no flag s): not a line terminator *)
| OneChar (c : ascii)
| CharClass (negated : bool) (items : list ClassItem).

Inductive Regex : Type :=
| Epsilon
| Chars (cs : CharSet)
| Seq (r1 r2 : Regex)
| Alt (r1 r2 : Regex)
| Star (greedy : bool) (r : Regex)
| Group (index : nat) (r : Regex)
| AssertStart                      (* ^ (no flag m) *)
| AssertEnd.                       (* $ (no flag m) *)

(** [r+] is [r r*]; the plugin quantifies only group-free atoms. *)
Definition Plus (greedy : bool) (r : Regex) : Regex := Seq r (Star greedy r).

(** The characters of [s] in sequence, then [k]. *)
Fixpoint lit (s : string) (k : Regex) : Regex :=
  match s with
  | EmptyString => k
  | String c tl => Seq (Chars (OneChar c)) (lit tl k)
  end.

Definition code_between (lo hi : nat) (c : ascii) : bool :=
  (lo <=? nat_of_ascii c)%nat && (nat_of_ascii c <=? hi)%nat.

(** [\w]: [A-Za-z0-9_]. *)
Definition is_word_char (c : ascii) : bool :=
  code_between 97 122 c || code_between 65 90 c || code_between 48 57 c
  || Ascii.eqb c "_".

(** Line feed and carriage return (U+2028 and U+2029 lie outside the
    one-byte range). *)
Definition is_line_terminator (c : ascii) : bool :=
  Ascii.eqb c (ascii_of_nat 10) || Ascii.eqb c (ascii_of_nat 13).

Definition item_mem (c : ascii) (it : ClassItem) : bool :=
  match it with
  | ItemChar d => Ascii.eqb c d
  | ItemWord => is_word_char c
  end.

Definition charset_mem (cs : CharSet) (c : ascii) : bool :=
  match cs with
  | AnyChar => negb (is_line_terminator c)
  | OneChar d => Ascii.eqb c d
  | CharClass negated items => xorb negated (existsb (item_mem c) items)
  end.

(** The state of a match: the index reached, the input from that index
    on, and the captures recorded so far (latest first). *)
Record MatchState : Type := {
  endIndex : nat;
  remaining : string;
  captures : list (nat * string);
}.

Definition string_take (n : nat) (s : string) : string := String.substring 0 n s.

Definition or_else {A : Type} (a b : option A) : option A :=
  match a with
  | Some x => Some x
  | None => b
  end.

(** The loop of a star over the matcher [step] of its body.  An
    iteration that consumed nothing is rejected, as the specification
    requires, so a star at a state with [n] code units left iterates at
    most [n] times and [S n] units of [fuel] are never used up. *)
Fixpoint repeat_matcher
    (step : (MatchState -> option MatchState) -> MatchState
            -> option MatchState)
    (greedy : bool) (k : MatchState -> option MatchState)
    (fuel : nat) (x : MatchState) : option MatchState :=
  match fuel with
  | O => None
  | S fuel' =>
      let again :=
        step (fun y => if (endIndex y =? endIndex x)%nat then None
                       else repeat_matcher step greedy k fuel' y) x in
      if greedy then or_else again (k x) else or_else (k x) again
  end.

(** The matcher of [r]: on success the state the continuation [k]
    returned. *)
Fixpoint matcher (r : Regex) (k : MatchState -> option MatchState)
    (x : MatchState) : option MatchState :=
  match r with
  | Epsilon => k x
  | Chars cs =>
      match remaining x with
      | String c tl =>
          if charset_mem cs c
          then k {| endIndex := S (endIndex x); remaining := tl;
                    captures := captures x |}
          else None
      | EmptyString => None
      end
  | Seq r1 r2 => matcher r1 (matcher r2 k) x
  | Alt r1 r2 => or_else (matcher r1 k x) (matcher r2 k x)
  | Star greedy r1 =>
      repeat_matcher (matcher r1) greedy k
                     (S (String.length (remaining x))) x
  | Group index r1 =>
      matcher r1
        (fun y =>
           k {| endIndex := endIndex y; remaining := remaining y;
                captures :=
                  (index,
                   string_take (endIndex y - endIndex x) (remaining x))
                    :: captures y |}) x
  | AssertStart => if (endIndex x =? 0)%nat then k x else None
  | AssertEnd =>
      match remaining x with
      | EmptyString => k x
      | String _ _ => None
      end
  end.

(** The result of [exec]: where the match starts, the text skipped
    before it (from where the search began), the matched text, the
    captures, and the input after the match. *)
Record MatchResult : Type := {
  m_index : nat;
  m_skipped : string;
  m_matched : string;
  m_captures : list (nat * string);
  m_end : nat;
  m_after : string;
}.

(** The capture of group [n], [undefined] when the group took no part in
    the match. *)
Definition capture (m : MatchResult) (n : nat) : option string :=
  snd <$> List.find (fun p => (fst p =? n)%nat) (m_captures m).

(** The leftmost match at or after index [i], where [rest] is the input
    from [i] on: each start index is tried in turn. *)
Fixpoint search (r : Regex) (i : nat) (rest : string) : option MatchResult :=
  match matcher r Some {| endIndex := i; remaining := rest; captures := [] |}
  with
  | Some y =>
      Some {| m_index := i; m_skipped := EmptyString;
              m_matched := string_take (endIndex y - i) rest;
              m_captures := captures y;
              m_end := endIndex y; m_after := remaining y |}
  | None =>
      match rest with
      | EmptyString => None
      | String c tl =>
          (fun m => {| m_index := m_index m;
                       m_skipped := String c (m_skipped m);
                       m_matched := m_matched m;
                       m_captures := m_captures m;
                       m_end := m_end m; m_after := m_after m |})
            <$> search r (S i) tl
      end
  end.

(** [RegExp.prototype.test] of a pattern without the flags [g] and [y]:
    the search starts at index 0 and [lastIndex] is not touched. *)
Definition RegExp_test (r : Regex) (s : string) : bool :=
  match search r 0 s with
  | Some _ => true
  | None => false
  end.

(** The pieces a global pattern cuts a string into: the matches, found
    one after the other, and the text kept between them.  After an empty
    match the search resumes one code unit further. *)
Inductive Segment : Type :=
| Kept (text : string)
| Hit (m : MatchResult).

Fixpoint scan (fuel : nat) (r : Regex) (i : nat) (rest : string)
    : list Segment :=
  match fuel with
  | O => [Kept rest]
  | S fuel' =>
      match search r i rest with
      | None => [Kept rest]
      | Some m =>
          Kept (m_skipped m) :: Hit m ::
            (if (m_end m =? m_index m)%nat
             then match m_after m with
                  | EmptyString => []
                  | String c tl =>
                      Kept (String c EmptyString)
                        :: scan fuel' r (S (m_end m)) tl
                  end
             else scan fuel' r (m_end m) (m_after m))
      end
  end.

Definition segments (r : Regex) (s : string) : list Segment :=
  scan (S (String.length s)) r 0 s.

(** [GetSubstitution] for a pattern without capture groups (both
    patterns the plugin replaces by a template are): [$$], [$&], [$`]
    and [$'] are expanded, any other [$] stands for itself. *)
Fixpoint GetSubstitution (matched before after template : string) : string :=
  match template with
  | EmptyString => EmptyString
  | String c tl =>
      if Ascii.eqb c "$" then
        match tl with
        | String d tl' =>
            if Ascii.eqb d "$" then
              String "$" (GetSubstitution matched before after tl')
            else if Ascii.eqb d "&" then
              matched +:+ GetSubstitution matched before after tl'
            else if Ascii.eqb d "`" then
              before +:+ GetSubstitution matched before after tl'
            else if Ascii.eqb d "'" then
              after +:+ GetSubstitution matched before after tl'
            else String c (GetSubstitution matched before after tl)
        | EmptyString => String c EmptyString
        end
      else String c (GetSubstitution matched before after tl)
  end.

(** The text a template replacement assembles from the pieces of
    [whole]. *)
Definition render (template whole : string) (segs : list Segment) : string :=
  foldr
    (fun seg acc =>
       match seg with
       | Kept t => t +:+ acc
       | Hit m =>
           GetSubstitution (m_matched m) (string_take (m_index m) whole)
                           (m_after m) template +:+ acc
       end)
    EmptyString segs.

(** [s.replace(r, template)] for a pattern [r] with the flag [g]. *)
Definition String_replace (r : Regex) (template : string) (s : string)
    : string :=
  render template s (segments r s).

(** [ToString] of a [string | undefined]. *)
Definition ToString (v : option string) : string :=
  match v with
  | Some s => s
  | None => "undefined"
  end.

(** [s.replaceAll(r, replacer)] for a pattern [r] with the flag [g] and a
    function [replacer]: all matches are found first, then the replacer
    is called on each in order, its result converted to a string; the
    first call that throws ends the replacement. *)
Fixpoint replace_segments
    (replacer : MatchResult -> Completion (option string))
    (segs : list Segment) : Completion string :=
  match segs with
  | [] => Normal EmptyString
  | Kept t :: segs' =>
      Completion_bind (replace_segments replacer segs')
        (fun acc => Normal (t +:+ acc))
  | Hit m :: segs' =>
      Completion_bind (replacer m) (fun v =>
      Completion_bind (replace_segments replacer segs')
        (fun acc => Normal (ToString v +:+ acc)))
  end.

Definition String_replaceAll (r : Regex)
    (replacer : MatchResult -> Completion (option string)) (s : string)
    : Completion string :=
  replace_segments replacer (segments r s).

(* ----------------------------------------------------------------- *)
(** *** The [RegExp] constructor

    [new RegExp(source)] parses [source].  The parser below covers the
    part of the pattern grammar [externalToRegex] can produce: a
    sequence of terms, each one of [^], [$], or an atom ([.], an escaped
    punctuation character, an ordinary character) with an optional
    greedy [*].  On any other source, accepted by the language or not,
    it answers [None]. *)

(** The characters of the source that cannot stand for themselves. *)
Definition is_syntax_char (c : ascii) : bool :=
  existsb (Ascii.eqb c)
    ["^"; "$"; "\"; "."; "*"; "+"; "?"; "("; ")"; "["; "]"; "{"; "}"; "|"]%char.

(** The characters [\c] denotes literally, as far as this parser goes:
    the syntax characters, [/] and [-]. *)
Definition is_identity_escape (c : ascii) : bool :=
  is_syntax_char c || Ascii.eqb c "/" || Ascii.eqb c "-".

(** An atom and what follows it in the source: the atom under a greedy
    star when a [*] follows (and no [?] after it, which would make the
    star lazy). *)
Definition quantified (atom : Regex) (rest : string)
    : option (Regex * string) :=
  match rest with
  | String q rest' =>
      if Ascii.eqb q "*" then
        match rest' with
        | String l _ =>
            if Ascii.eqb l "?" then None else Some (Star true atom, rest')
        | EmptyString => Some (Star true atom, rest')
        end
      else Some (atom, rest)
  | EmptyString => Some (atom, rest)
  end.

(** The term at the head of the source [String c tl], and the source
    after it. *)
Definition parse_term (c : ascii) (tl : string) : option (Regex * string) :=
  if Ascii.eqb c "\" then
    match tl with
    | String e tl' =>
        if is_identity_escape e then quantified (Chars (OneChar e)) tl'
        else None
    | EmptyString => None
    end
  else if Ascii.eqb c "^" then Some (AssertStart, tl)
  else if Ascii.eqb c "$" then Some (AssertEnd, tl)
  else if Ascii.eqb c "." then quantified (Chars AnyChar) tl
  else if is_syntax_char c then None
  else quantified (Chars (OneChar c)) tl.

(** The terms of a source; a term takes at least one character, so as
    many units of [fuel] as the source has characters are enough. *)
Fixpoint parse_terms (fuel : nat) (source : string) : option (list Regex) :=
  match source with
  | EmptyString => Some []
  | String c tl =>
      match fuel with
      | O => None
      | S fuel' =>
          match parse_term c tl with
          | Some (t, rest) => cons t <$> parse_terms fuel' rest
          | None => None
          end
      end
  end.

Definition RegExp_new (source : string) : option Regex :=
  foldr Seq Epsilon <$> parse_terms (String.length source) source.

(* ----------------------------------------------------------------- *)
(** *** The pattern literals of the plugin *)

(** [/[-/\\^$+?.()|[\]{}]/g] *)
Definition metacharReg : Regex :=
  Chars (CharClass false
    (ItemChar <$> ["-"; "/"; "\"; "^"; "$"; "+"; "?"; "."; "("; ")"; "|";
                   "["; "]"; "{"; "}"]%char)).

(** [/\*/g] *)
Definition starReg : Regex := Chars (OneChar "*").

(** [/Relative import path ".*?" not prefixed with/] *)
Definition couldNotResolveReg : Regex :=
  lit "Relative import path "
    (lit dquote
       (Seq (Star false (Chars AnyChar))
          (lit dquote (lit " not prefixed with" Epsilon)))).

(** [/Deno\.env\.get\(["']([^)]+)['"]\)|process\.env\.([\w_-]+)/g] *)
Definition envReg : Regex :=
  Alt
    (lit "Deno.env.get("
       (Seq (Chars (CharClass false [ItemChar dquote_char; ItemChar "'"]))
          (Seq (Group 1 (Plus true (Chars (CharClass true [ItemChar ")"]))))
             (Seq (Chars (CharClass false [ItemChar "'"; ItemChar dquote_char]))
                (lit ")" Epsilon)))))
    (lit "process.env."
       (Group 2
          (Plus true
             (Chars (CharClass false [ItemWord; ItemChar "_"; ItemChar "-"]))))).

(** [externalToRegex]: the pattern source is [external] with every
    character of [metacharReg] preceded by a backslash, then every [*]
    replaced by [.*], between [^] and [$]. *)
Definition externalToRegex (external : string) : option Regex :=
  RegExp_new
    ("^" +:+ String_replace starReg ".*"
               (String_replace metacharReg "\$&" external) +:+ "$").

(* ================================================================= *)
(** ** [JSON.stringify] of a [string | undefined] *)

Definition hex_digit (n : nat) : ascii :=
  if (n <? 10)%nat then ascii_of_nat (48 + n) else ascii_of_nat (87 + n).

(** [QuoteJSONString], one code unit: the two-character escapes, [\u00xx]
    for the other control characters, the unit itself otherwise. *)
Definition quote_code_unit (c : ascii) : string :=
  let n := nat_of_ascii c in
  if (n =? 8)%nat then "\b"
  else if (n =? 9)%nat then "\t"
  else if (n =? 10)%nat then "\n"
  else if (n =? 12)%nat then "\f"
  else if (n =? 13)%nat then "\r"
  else if (n =? 34)%nat then String "\" dquote
  else if (n =? 92)%nat then "\\"
  else if (n <? 32)%nat then
    "\u00" +:+ String (hex_digit (n / 16)) (String (hex_digit (n mod 16)) EmptyString)
  else String c EmptyString.

Fixpoint quote_code_units (s : string) : string :=
  match s with
  | EmptyString => EmptyString
  | String c tl => quote_code_unit c +:+ quote_code_units tl
  end.

Definition QuoteJSONString (s : string) : string :=
  dquote +:+ quote_code_units s +:+ dquote.

(** [JSON.stringify(undefined)] is [undefined]. *)
Definition JSON_stringify (v : option string) : option string :=
  QuoteJSONString <$> v.

(* ================================================================= *)
(** ** What the plugin imports from its host *)

Class Host : Type := {
  (** [isBuiltin] of [node:module]. *)
  isBuiltin : string -> bool;
  (** [path.fromFileUrl(url)] of [@std/path]; throws on a URL it cannot
      convert. *)
  fromFileUrl : string -> Completion string;
  (** [path.toFileUrl(path).toString()]; throws on a path that is not
      absolute. *)
  toFileUrl : string -> Completion string;
  (** [new TextDecoder().decode(bytes)]. *)
  TextDecoder_decode : list Byte.byte -> string;
  (** [Deno.env.get(name)]; [undefined] for a variable that is not set. *)
  Deno_env_get : string -> Completion (option string);
}.

(* ================================================================= *)
(** ** Hooks: computations that await the loader *)

Inductive Hook (A : Type) : Type :=
| Done (c : Completion A)
| AwaitResolve (specifier importer : string) (mode : ResolutionMode)
               (k : Completion string -> Hook A)
| AwaitLoad (url : string) (requested : RequestedModuleType)
            (k : Completion LoadResponse -> Hook A).
Arguments Done {A} c.
Arguments AwaitResolve {A} specifier importer mode k.
Arguments AwaitLoad {A} url requested k.

Definition ret {A : Type} (a : A) : Hook A := Done (Normal a).
Definition throw {A : Type} (e : Thrown) : Hook A := Done (Throw e).

Fixpoint bind {A B : Type} (m : Hook A) (f : A -> Hook B) : Hook B :=
  match m with
  | Done (Normal a) => f a
  | Done (Throw e) => Done (Throw e)
  | AwaitResolve s i mode k => AwaitResolve s i mode (fun c => bind (k c) f)
  | AwaitLoad u t k => AwaitLoad u t (fun c => bind (k c) f)
  end.

(** [try { m } catch (err) { handler err }]. *)
Fixpoint try_catch {A : Type} (m : Hook A) (handler : Thrown -> Hook A)
    : Hook A :=
  match m with
  | Done (Normal a) => Done (Normal a)
  | Done (Throw e) => handler e
  | AwaitResolve s i mode k =>
      AwaitResolve s i mode (fun c => try_catch (k c) handler)
  | AwaitLoad u t k => AwaitLoad u t (fun c => try_catch (k c) handler)
  end.

#[export] Instance Hook_ret : MRet Hook := @ret.
#[export] Instance Hook_bind : MBind Hook := fun A B f m => bind m f.

(** [await loader.resolve(specifier, importer, mode)] and
    [await loader.load(url, requested)]: a rejection is thrown at the
    [await]. *)
Definition loader_resolve (specifier importer : string)
    (mode : ResolutionMode) : Hook string :=
  AwaitResolve specifier importer mode Done.

Definition loader_load (url : string) (requested : RequestedModuleType)
    : Hook LoadResponse :=
  AwaitLoad url requested Done.

(** An engine behind the loader: it answers each call from its own
    state, which the call may change. *)
Record Engine (S : Type) : Type := {
  engine_resolve :
    S -> string -> string -> ResolutionMode -> Completion string * S;
  engine_load :
    S -> string -> RequestedModuleType -> Completion LoadResponse * S;
}.
Arguments engine_resolve {S} _ _ _ _ _.
Arguments engine_load {S} _ _ _ _.

Inductive EngineCall : Type :=
| CallResolve (specifier importer : string) (mode : ResolutionMode)
| CallLoad (url : string) (requested : RequestedModuleType).

(** Running a hook against an engine: its completion, the engine's final
    state, and the calls made, in order. *)
Fixpoint run {S A : Type} (E : Engine S) (m : Hook A) (s : S)
    : Completion A * S * list EngineCall :=
  match m with
  | Done c => (c, s, [])
  | AwaitResolve specifier importer mode k =>
      let '(c, s') := engine_resolve E s specifier importer mode in
      let '(r, s'', calls) := run E (k c) s' in
      (r, s'', CallResolve specifier importer mode :: calls)
  | AwaitLoad url requested k =>
      let '(c, s') := engine_load E s url requested in
      let '(r, s'', calls) := run E (k c) s' in
      (r, s'', CallLoad url requested :: calls)
  end.

(* ================================================================= *)
(** ** The plugin *)

Record DenoPluginOptions : Type := {
  debug : option bool;
  configPath : option string;
  noTranspile : option bool;
  preserveJsx : option bool;
  publicEnvVarPrefix : option string;
}.

(** [(ctx.initialOptions.external ?? []).map((item) =>
    externalToRegex(item))], computed once by [setup]. *)
Definition compile_externals (external : option (list string))
    : option (list Regex) :=
  mapM externalToRegex (default [] external).

(** The namespace [onResolve] computes from the resolved URL (the chain
    of [startsWith] tests); [None] when it stays [undefined]. *)
Definition classify (res : string) : option string :=
  if startsWith res "file:" then Some "file"
  else if startsWith res "http:" then Some "http"
  else if startsWith res "https:" then Some "https"
  else if startsWith res "npm:" then Some "npm"
  else if startsWith res "jsr:" then Some "jsr"
  else None.

(** The resolution mode [onResolve] asks for: [args.kind ===
    "require-call" || args.kind === "require-resolve" ? Require : Import]. *)
Definition resolution_mode (kind : ImportKind) : ResolutionMode :=
  match kind with
  | require_call | require_resolve => ModeRequire
  | _ => ModeImport
  end.

(** The test of the [catch] clause of [onResolve]:
    [err instanceof Error && couldNotResolveReg.test(err.message)]. *)
Definition could_not_resolve (err : Thrown) : bool :=
  match err with
  | ErrorObject _ message => RegExp_test couldNotResolveReg message
  | OtherValue _ => false
  end.

(** Truthiness of a [string | undefined]. *)
Definition truthy (v : option string) : bool :=
  match v with
  | Some s => negb (String.eqb s EmptyString)
  | None => false
  end.

Section Plugin.
Context `{Host}.
Variable externals : list Regex.
Variable options : DenoPluginOptions.

(** The path [onResolve] returns for the resolved URL [res]. *)
Definition resolved (res : string) : Completion string :=
  if startsWith res "file:" then fromFileUrl res else Normal res.

Definition onResolve (args : OnResolveArgs)
    : Hook (option OnResolveResult) :=
  if isBuiltin (resolve_path args)
     || existsb (fun reg => RegExp_test reg (resolve_path args)) externals
  then
    ret (Some {| result_path := resolve_path args;
                 result_external := Some true;
                 result_namespace := None |})
  else
    let kind := resolution_mode (resolve_kind args) in
    try_catch
      (res ← loader_resolve (resolve_path args) (resolve_importer args) kind ;
       let namespace := classify res in
       resolved ← Done (resolved res) ;
       ret (Some {| result_path := resolved;
                    result_external := None;
                    result_namespace := namespace |}))
      (fun err =>
         if could_not_resolve err then ret None
         else throw err).

(** The URL [onLoad] hands to the loader for [path]. *)
Definition url_of_path (path : string) : Completion string :=
  if startsWith path "http:" || startsWith path "https:"
     || startsWith path "npm:" || startsWith path "jsr:"
  then Normal path
  else toFileUrl path.

(** The replacer of [onLoad]: [(m, name, processName) => ...]. *)
Definition envReplacer (envPrefix : string) (m : MatchResult)
    : Completion (option string) :=
  let name := capture m 1 in
  let processName := capture m 2 in
  let inlined (variable : string) :=
    Completion_bind (Deno_env_get variable)
      (fun value => Normal (JSON_stringify value)) in
  match name with
  | Some n =>
      if startsWith n envPrefix then inlined n
      else
        match processName with
        | Some p =>
            if startsWith p envPrefix then inlined p
            else Normal (Some (m_matched m))
        | None => Normal (Some (m_matched m))
        end
  | None =>
      match processName with
      | Some p =>
          if startsWith p envPrefix then inlined p
          else Normal (Some (m_matched m))
      | None => Normal (Some (m_matched m))
      end
  end.

(** [code.replaceAll(envReg, replacer)]. *)
Definition inlineEnv (envPrefix code : string) : Completion string :=
  String_replaceAll envReg (envReplacer envPrefix) code.

Definition onLoad (args : OnLoadArgs) : Hook (option OnLoadResult) :=
  url ← Done (url_of_path (load_path args)) ;
  let moduleType := getModuleType (load_path args) (load_with args) in
  res ← loader_load url moduleType ;
  match res with
  | ExternalLoadResponse _ => ret None
  | ModuleLoadResponse _ mediaType res_code =>
      let esbuildLoader := mediaToLoader mediaType in
      let envPrefix := publicEnvVarPrefix options in
      if truthy envPrefix && RequestedModuleType_eqb moduleType Default
      then
        let code := TextDecoder_decode res_code in
        code ← Done (inlineEnv (default EmptyString envPrefix) code) ;
        ret (Some {| contents := ContentsText code;
                     loader := esbuildLoader |})
      else
        ret (Some {| contents := ContentsBytes res_code;
                     loader := esbuildLoader |})
  end.
End Plugin.

(* ================================================================= *)
(** ** The External Pattern Matcher, as the specification words it

    A pattern matches a specifier as a whole; every character of the
    pattern other than [*] stands for itself, and [*] stands for any run
    of characters on one line. *)

(** Some run of characters on one line, then [tail]. *)
Fixpoint any_run (tail : string -> bool) (s : string) : bool :=
  tail s
  || match s with
     | String d s' => negb (is_line_terminator d) && any_run tail s'
     | EmptyString => false
     end.

Fixpoint glob_match (pattern : string) : string -> bool :=
  match pattern with
  | EmptyString => fun s => String.eqb s EmptyString
  | String c pattern' =>
      if Ascii.eqb c "*" then any_run (glob_match pattern')
      else
        fun s =>
          match s with
          | String d s' => Ascii.eqb d c && glob_match pattern' s'
          | EmptyString => false
          end
  end.

(* ================================================================= *)
(** ** Auxiliary definitions of the properties *)

(** The media types the mapping table names; [Cts] and [Dts] are
    enumerators it leaves out. *)
Definition tabled_media_types : list Z :=
  [MediaType.Jsx; MediaType.JavaScript; MediaType.Mjs; MediaType.Cjs;
   MediaType.TypeScript; MediaType.Mts; MediaType.Dmts; MediaType.Dcts;
   MediaType.Tsx; MediaType.Css; MediaType.Json; MediaType.SourceMap;
   MediaType.Html; MediaType.Sql; MediaType.Unknown; MediaType.Wasm].

(** The test at the head of [onResolve]. *)
Definition is_external `{Host} (externals : list Regex) (specifier : string)
    : bool :=
  isBuiltin specifier
  || existsb (fun reg => RegExp_test reg specifier) externals.

Definition external_result (specifier : string) : OnResolveResult :=
  {| result_path := specifier; result_external := Some true;
     result_namespace := None |}.

(** What the [catch] clause of [onResolve] makes of a thrown value. *)
Definition caught (e : Thrown) : Completion (option OnResolveResult) :=
  if could_not_resolve e then Normal None else Throw e.

(** A statement whose right-hand side is the getter call for [name]. *)
Definition getter_call (name : string) : string :=
  "Deno.env.get(" +:+ dquote +:+ name +:+ dquote +:+ ")".

Definition statement (rhs : string) : string := "const v = " +:+ rhs +:+ ";".

(** Each character of [s] replaced by the string [f] gives for it. *)
Fixpoint expand (f : ascii -> string) (s : string) : string :=
  match s with
  | EmptyString => EmptyString
  | String c tl => f c +:+ expand f tl
  end.

(** A character of [cs] replaced by [sub], any other kept. *)
Definition replace_one (cs : CharSet) (sub : ascii -> string) (c : ascii)
    : string :=
  if charset_mem cs c then sub c else String c EmptyString.

(** Membership in the class of [metacharReg]. *)
Definition is_metachar (c : ascii) : bool :=
  charset_mem (CharClass false
    (ItemChar <$> ["-"; "/"; "\"; "^"; "$"; "+"; "?"; "."; "("; ")"; "|";
                   "["; "]"; "{"; "}"]%char)) c.

(** The source text [externalToRegex] writes for one character of the
    external pattern, and the term the constructor reads back from it. *)
Definition term_source (c : ascii) : string :=
  if is_metachar c then String "\" (String c EmptyString)
  else if Ascii.eqb c "*" then ".*"
  else String c EmptyString.

Definition term (c : ascii) : Regex :=
  if Ascii.eqb c "*" then Star true (Chars AnyChar) else Chars (OneChar c).

Fixpoint terms (pattern : string) : list Regex :=
  match pattern with
  | EmptyString => [AssertEnd]
  | String c pattern' => term c :: terms pattern'
  end.

(** The pattern [externalToRegex] compiles an external pattern to. *)
Definition glob_regex (pattern : string) : Regex :=
  Seq AssertStart (foldr Seq Epsilon (terms pattern)).

Definition succeeds (o : option MatchState) : bool :=
  match o with
  | Some _ => true
  | None => false
  end.

(** [y] lies further on in the input of [x]. *)
Definition follows (x y : MatchState) : Prop :=
  endIndex y + String.length (remaining y)
  = endIndex x + String.length (remaining x)
  /\ String.length (remaining y) <= String.length (remaining x).

Definition Matcher : Type :=
  (MatchState -> option MatchState) -> MatchState -> option MatchState.

(** A matcher calls its continuation only further on in the input. *)
Definition forward (m : Matcher) : Prop :=
  forall (k k' : MatchState -> option MatchState) (x : MatchState),
    (forall y, follows x y -> k y = k' y) -> m k x = m k' x.

(** A result of a matcher is a result of its continuation, further on
    in the input. *)
Definition reaching (m : Matcher) : Prop :=
  forall (k : MatchState -> option MatchState) (x z : MatchState),
    m k x = Some z -> exists y, follows x y /\ k y = Some z.

(** A string without line terminators. *)
Fixpoint one_line (s : string) : bool :=
  match s with
  | EmptyString => true
  | String c tl => negb (is_line_terminator c) && one_line tl
  end.

(** The state [n] code units after [x], with [rest] left to read. *)
Definition advance (x : MatchState) (n : nat) (rest : string) : MatchState :=
  {| endIndex := endIndex x + n; remaining := rest; captures := captures x |}.

(** The messages of the engine's error for a bare specifier. *)
Definition not_prefixed (specifier tail : string) : string :=
  "Relative import path " +:+ dquote +:+ specifier +:+ dquote
    +:+ " not prefixed with" +:+ tail.

(* ================================================================= *)
(** ** A host and an engine to run the hooks on *)

Definition sample_env : gmap string string :=
  {[ "FOO_BAR" := "baz"; "FOO_EMPTY" := EmptyString ]}.

Definition string_drop (n : nat) (s : string) : string :=
  String.substring n (String.length s - n) s.

(** A POSIX-like host: builtins are the [node:] specifiers, a file URL
    is [file://] followed by an absolute path, bytes decode one code unit
    each, and the environment is [sample_env]. *)
Definition sample_host : Host := {|
  isBuiltin s := startsWith s "node:";
  fromFileUrl url :=
    if startsWith url "file:///" then Normal (string_drop 7 url)
    else Throw (ErrorObject "TypeError" "URL must be a file URL");
  toFileUrl path :=
    if startsWith path "/" then Normal ("file://" +:+ path)
    else Throw (ErrorObject "TypeError" "Path must be absolute");
  TextDecoder_decode := string_of_list_byte;
  Deno_env_get name := Normal (sample_env !! name);
|}.

Definition not_prefixed_message (specifier : string) : string :=
  not_prefixed specifier " / or ./ or ../".

(** An engine that counts its calls in its state. *)
Definition sample_engine : Engine nat := {|
  engine_resolve n specifier importer mode :=
    (if String.eqb specifier "./a.ts" then Normal "https://example.com/a.ts"
     else if String.eqb specifier "./local.ts" then
       Normal "file:///src/local.ts"
     else if String.eqb specifier "lib" then
       Throw (ErrorObject "Error" (not_prefixed_message specifier))
     else Throw (ErrorObject "Error" "Module not found"),
     S n);
  engine_load n url requested :=
    (Normal (ModuleLoadResponse url MediaType.TypeScript []), S n);
|}.

Definition sample_options (prefix : option string) : DenoPluginOptions := {|
  debug := None; configPath := None; noTranspile := None;
  preserveJsx := None; publicEnvVarPrefix := prefix;
|}.

Definition resolve_args (specifier : string) : OnResolveArgs := {|
  resolve_path := specifier;
  resolve_importer := "https://example.com/mod.ts";
  resolve_namespace := "https";
  resolve_kind := import_statement;
|}.

Definition load_args (path : string) (attributes : gmap string string)
    : OnLoadArgs := {|
  load_path := path; load_namespace := "file"; load_with := attributes;
|}.

(** The patterns ["@foo/*"] and ["lodash"], compiled as [setup] does. *)
Definition sample_externals : list Regex :=
  Eval vm_compute in default [] (compile_externals (Some ["@foo/*"; "lodash"])).

(* ================================================================= *)
(** ** The registrations of [setup] *)

(** [/.*/], the filter of every registration. *)
Definition filterAll : Regex := Star true (Chars AnyChar).

(** The namespaces [ctx.onResolve] is called with, in order; the first
    registration names none. *)
Definition onResolve_namespaces : list (option string) :=
  [None; Some "file"; Some "http"; Some "https"; Some "data"; Some "npm";
   Some "jsr"].

(** The namespaces [ctx.onLoad] is called with, in order. *)
Definition onLoad_namespaces : list string :=
  ["file"; "jsr"; "npm"; "http"; "https"; "data"].

(* ================================================================= *)
(** ** The [Loader] class of [@deno/loader] (vendor [mod.ts])

    [Loader] wraps the generated loader ([#inner]) and writes to
    [console.error] when [#debug] is set; the lines written are kept in
    a log beside the state of the inner loader. *)

Definition requestedModuleTypeToString (moduleType : RequestedModuleType)
    : option string :=
  match moduleType with
  | Bytes => Some "bytes"
  | Text => Some "text"
  | Json => Some "json"
  | Default => None
  end.

Definition resolutionModeToString (mode : ResolutionMode) : string :=
  match mode with
  | ModeImport => "import"
  | ModeRequire => "require"
  end.

(** The generated loader: [resolve] takes [string | null | undefined] as
    importer. *)
Record WasmLoader (S : Type) : Type := {
  wasm_resolve :
    S -> string -> option string -> ResolutionMode -> Completion string * S;
  wasm_load :
    S -> string -> RequestedModuleType -> Completion LoadResponse * S;
}.
Arguments wasm_resolve {S} _ _ _ _ _.
Arguments wasm_load {S} _ _ _ _.

(** [Loader.prototype.resolve]: the second line is written only after
    the inner [resolve] has fulfilled. *)
Definition Loader_resolve {S : Type} (debug : bool) (inner : WasmLoader S)
    (st : S * list string) (specifier : string) (referrer : option string)
    (resolutionMode : ResolutionMode) : Completion string * (S * list string) :=
  let log :=
    if debug then
      st.2 ++ ["DEBUG - Resolving '" +:+ specifier +:+ "' from '"
               +:+ default "<undefined>" referrer +:+ "' ("
               +:+ resolutionModeToString resolutionMode +:+ ")"]
    else st.2 in
  let '(c, s') := wasm_resolve inner st.1 specifier referrer resolutionMode in
  match c with
  | Normal value =>
      (Normal value,
       (s', if debug then log ++ ["DEBUG - Resolved to '" +:+ value +:+ "'"]
            else log))
  | Throw e => (Throw e, (s', log))
  end.

(** [Loader.prototype.load]. *)
Definition Loader_load {S : Type} (debug : bool) (inner : WasmLoader S)
    (st : S * list string) (specifier : string)
    (requestedModuleType : RequestedModuleType)
    : Completion LoadResponse * (S * list string) :=
  let log :=
    if debug then
      st.2 ++ ["DEBUG - Loading '" +:+ specifier +:+ "' with type '"
               +:+ default "<default>"
                     (requestedModuleTypeToString requestedModuleType)
               +:+ "'"]
    else st.2 in
  let '(c, s') := wasm_load inner st.1 specifier requestedModuleType in
  (c, (s', log)).

(** The engine the hooks of the plugin talk to: a [Loader] over the
    generated loader; the plugin always passes [args.importer], a
    string. *)
Definition Loader_engine {S : Type} (debug : bool) (inner : WasmLoader S)
    : Engine (S * list string) := {|
  engine_resolve st specifier importer mode :=
    Loader_resolve debug inner st specifier (Some importer) mode;
  engine_load st url requested := Loader_load debug inner st url requested;
|}.

(** [new Workspace(options)] keeps [options.debug ?? false] and hands it
    to the loaders it creates; the plugin passes its own [debug] option. *)
Definition Workspace_debug (options : DenoPluginOptions) : bool :=
  default false (debug options).

(* ================================================================= *)
(** ** [pathWithRoot] and the [fresh] plugin (Vite) *)

(** [isAbsolute] and [join] of [@std/path], and [Deno.cwd()]. *)
Class PathApi : Type := {
  isAbsolute : string -> bool;
  join : list string -> string;
  cwd : string;
}.

Definition pathWithRoot `{PathApi} (fileOrDir : string) (root : option string)
    : string :=
  if isAbsolute fileOrDir then fileOrDir
  else
    match root with
    | None => join [cwd; fileOrDir]
    | Some root =>
        if isAbsolute root then join [root; fileOrDir]
        else join [cwd; root; fileOrDir]
    end.

(** The object [fConfig] of [fresh]. *)
Record FreshConfig : Type := {
  serverEntry : string;
  islandsDir : string;
  routeDir : string;
  ignore : list string;
}.

(** The options [fresh] reads from its argument; the argument itself may
    be missing, and so may each option. *)
Record FreshOptions : Type := {
  opt_serverEntry : option string;
  opt_islandsDir : option string;
  opt_routeDir : option string;
  opt_ignore : option (list string);
}.

(** [fConfig] as [fresh(config)] initialises it. *)
Definition fresh_config (config : option FreshOptions) : FreshConfig := {|
  serverEntry := default "main.ts" (config ≫= opt_serverEntry);
  islandsDir := default "islands" (config ≫= opt_islandsDir);
  routeDir := default "routes" (config ≫= opt_routeDir);
  ignore := default [] (config ≫= opt_ignore);
|}.

(** The hook [configResolved(config)], as an update of [fConfig];
    [root] is [config.root]. *)
Definition configResolved `{PathApi} (root : option string)
    (fConfig : FreshConfig) : FreshConfig := {|
  serverEntry := serverEntry fConfig;
  islandsDir := pathWithRoot (islandsDir fConfig) root;
  routeDir := pathWithRoot (routeDir fConfig) root;
  ignore := ignore fConfig;
|}.

(* ================================================================= *)
(** ** Auxiliary definitions of the further properties *)

(** All characters of [s] satisfy [p]. *)
Fixpoint all_chars (p : ascii -> bool) (s : string) : bool :=
  match s with
  | EmptyString => true
  | String c tl => p c && all_chars p tl
  end.

Definition star_free (pattern : string) : bool :=
  all_chars (fun c => negb (Ascii.eqb c "*")) pattern.

(** [needle] occurs somewhere in [s]. *)
Fixpoint occurs (needle s : string) : bool :=
  startsWith s needle
  || match s with
     | EmptyString => false
     | String _ tl => occurs needle tl
     end.

(** The positions a greedy star over a run [body] offers its
    continuation [k], the furthest first; [i] and [caps] are the index
    and the captures at the start of the run, [rest] what follows it. *)
Fixpoint try_positions (k : MatchState -> option MatchState)
    (i : nat) (caps : list (nat * string)) (body rest : string)
    : option MatchState :=
  match body with
  | EmptyString => k {| endIndex := i; remaining := rest; captures := caps |}
  | String c tl =>
      or_else (try_positions k (S i) caps tl rest)
              (k {| endIndex := i; remaining := String c tl +:+ rest;
                    captures := caps |})
  end.

(** The two quote characters of the getter pattern. *)
Definition is_quote (c : ascii) : bool :=
  Ascii.eqb c dquote_char || Ascii.eqb c "'".

(** [Deno.env.get(<q1>name<q2>)]. *)
Definition getter_text (q1 q2 : ascii) (name : string) : string :=
  "Deno.env.get(" +:+ String q1 (name +:+ String q2 ")").

(** [process.env.name]. *)
Definition process_text (name : string) : string := "process.env." +:+ name.

(** What the replacer returns for a variable that carries the prefix,
    as text. *)
Definition inlined_text `{Host} (name : string) : Completion string :=
  Completion_bind (Deno_env_get name)
    (fun value => Normal (ToString (JSON_stringify value))).

(** An engine that answers every call alike. *)
Definition const_engine (resolution : Completion string)
    (response : Completion LoadResponse) : Engine nat := {|
  engine_resolve n _ _ _ := (resolution, S n);
  engine_load n _ _ := (response, S n);
|}.

(** A generated loader that answers every call alike. *)
Definition const_wasm (resolution : Completion string)
    (response : Completion LoadResponse) : WasmLoader nat := {|
  wasm_resolve n _ _ _ := (resolution, S n);
  wasm_load n _ _ := (response, S n);
|}.

(** A POSIX-like path API: absolute paths begin with [/], [join] puts a
    [/] between the segments. *)
Fixpoint join_segments (segments : list string) : string :=
  match segments with
  | [] => "."
  | [s] => s
  | s :: rest => s +:+ "/" +:+ join_segments rest
  end.

Definition sample_paths : PathApi := {|
  isAbsolute p := startsWith p "/";
  join := join_segments;
  cwd := "/work";
|}.

(* ================================================================= *)
(** * Properties *)

(* ================================================================= *)
(** ** Module Type Selector *)

Lemma startsWith_empty (s : string) : startsWith s EmptyString = true.
Proof. by destruct s. Qed.

(** C1, as the code has it.  [getModuleType] answers [Text], [Bytes] and
    [Json] for the attribute values ["text"], ["bytes"] and ["json"],
    whatever the path; for a bag without the attribute, and equally for
    an attribute of any other value, it answers [Json] when the path
    ends in [.json] and [Default] otherwise. *)
Theorem getModuleType_precedence (file : string) (w : gmap string string) :
  (w !! "type" = Some "text" -> getModuleType file w = Text) /\
  (w !! "type" = Some "bytes" -> getModuleType file w = Bytes) /\
  (w !! "type" = Some "json" -> getModuleType file w = Json) /\
  (w !! "type" <> Some "text" -> w !! "type" <> Some "bytes" ->
   w !! "type" <> Some "json" ->
   getModuleType file w = if endsWith file ".json" then Json else Default).
Proof.
  unfold getModuleType.
  repeat split; try (intros ->; reflexivity).
  intros Ht Hb Hj.
  destruct (w !! "type") as [v|] eqn:E; [|reflexivity].
  destruct (decide (v = "text")) as [->|]; [done|].
  destruct (decide (v = "bytes")) as [->|]; [done|].
  destruct (decide (v = "json")) as [->|]; [done|].
  repeat (match goal with
          | |- context [match ?x with _ => _ end] =>
              is_var x; destruct x; try done
          end).
Qed.

(** The spec's three examples and an attribute the selector does not
    know, on a path that ends in [.json]. *)
Lemma getModuleType_precedence_witness :
  getModuleType "x.json" {[ "type" := "text" ]} = Text /\
  getModuleType "x.json" ∅ = Json /\
  getModuleType "x.ts" ∅ = Default /\
  getModuleType "x.json" {[ "type" := "css" ]} = Json.
Proof.
  refine (conj _ (conj _ (conj _ _))).
  - by apply (getModuleType_precedence "x.json" {[ "type" := "text" ]}).
  - by apply (getModuleType_precedence "x.json" ∅).
  - by apply (getModuleType_precedence "x.ts" ∅).
  - by apply (getModuleType_precedence "x.json" {[ "type" := "css" ]}).
Defined.

(** C1 as stated fails: with the attribute [type: "css"] present, the
    selector still sniffs the extension of [x.json] and answers [Json],
    not [Default]; so an attribute of another value does not switch
    extension sniffing off. *)
Lemma getModuleType_sniffs_despite_attribute :
  ({[ "type" := "css" ]} : gmap string string) !! "type" = Some "css"
  /\ getModuleType "x.json" {[ "type" := "css" ]} = Json
  /\ ~ (forall (file : string) (w : gmap string string) (v : string),
          w !! "type" = Some v ->
          v <> "text" -> v <> "bytes" -> v <> "json" ->
          getModuleType file w = Default).
Proof.
  refine (conj _ (conj _ _)); [done|done|].
  intros Hall.
  assert (getModuleType "x.json" {[ "type" := "css" ]} = Default) as E
    by (by apply (Hall _ _ "css")).
  vm_compute in E. discriminate E.
Qed.

(* ================================================================= *)
(** ** Media Type Mapper *)

Lemma media_type_cases (type : Z) :
  (0 <= type <= 17)%Z ->
  type ∈ [0; 1; 2; 3; 4; 5; 6; 7; 8; 9; 10; 11; 12; 13; 14; 15; 16; 17]%Z.
Proof.
  intros Hin.
  assert (type = 0 \/ type = 1 \/ type = 2 \/ type = 3 \/ type = 4 \/
          type = 5 \/ type = 6 \/ type = 7 \/ type = 8 \/ type = 9 \/
          type = 10 \/ type = 11 \/ type = 12 \/ type = 13 \/ type = 14 \/
          type = 15 \/ type = 16 \/ type = 17)%Z as Hcases by lia.
  rewrite !elem_of_cons. intuition.
Qed.

Lemma mediaToLoader_out_of_range (type : Z) :
  ~ (0 <= type <= 17)%Z -> mediaToLoader type = L_default.
Proof.
  intros Hout. destruct type as [|p|p]; [lia| |reflexivity].
  do 5 (try destruct p as [p|p|]); try reflexivity; lia.
Qed.

Lemma mediaToLoader_default_arm (type : Z) :
  type ∉ tabled_media_types -> mediaToLoader type = L_default.
Proof.
  intros Hnot.
  destruct (decide (0 <= type <= 17)%Z) as [Hin|Hout];
    [|by apply mediaToLoader_out_of_range].
  apply media_type_cases in Hin.
  rewrite !elem_of_cons, elem_of_nil in Hin.
  destruct_or! Hin; try done; subst type;
    first [ reflexivity
          | exfalso; apply Hnot; vm_compute; set_solver ].
Qed.

(** C9.  [mediaToLoader] gives a loader for every number it is handed:
    the loader of the mapping table for each media type the table
    names, and [default] for every other value, the enumerators [Cts]
    and [Dts] and the numbers outside the enumeration included. *)
Theorem mediaToLoader_total :
  mediaToLoader MediaType.Jsx = L_jsx /\
  (mediaToLoader MediaType.JavaScript = L_js /\
   mediaToLoader MediaType.Mjs = L_js /\
   mediaToLoader MediaType.Cjs = L_js) /\
  (mediaToLoader MediaType.TypeScript = L_ts /\
   mediaToLoader MediaType.Mts = L_ts /\
   mediaToLoader MediaType.Dmts = L_ts /\
   mediaToLoader MediaType.Dcts = L_ts) /\
  mediaToLoader MediaType.Tsx = L_tsx /\
  mediaToLoader MediaType.Css = L_css /\
  (mediaToLoader MediaType.Json = L_json /\
   mediaToLoader MediaType.SourceMap = L_json) /\
  (mediaToLoader MediaType.Html = L_default /\
   mediaToLoader MediaType.Sql = L_default /\
   mediaToLoader MediaType.Unknown = L_default) /\
  mediaToLoader MediaType.Wasm = L_binary /\
  (forall type : Z,
     type ∉ tabled_media_types -> mediaToLoader type = L_default) /\
  (forall type : Z,
     mediaToLoader type
       ∈ [L_jsx; L_js; L_ts; L_tsx; L_css; L_json; L_default; L_binary]).
Proof.
  repeat (split; [try reflexivity; repeat split; reflexivity|]).
  split; [exact mediaToLoader_default_arm|].
  intros type.
  destruct (decide (0 <= type <= 17)%Z) as [Hin|Hout];
    [|rewrite (mediaToLoader_out_of_range type Hout); set_solver].
  apply media_type_cases in Hin.
  rewrite !elem_of_cons, elem_of_nil in Hin.
  destruct_or! Hin; try done; subst type; vm_compute; set_solver.
Qed.

(* ================================================================= *)
(** ** Namespace Classifier *)

Lemma startsWith_spec (s search : string) :
  startsWith s search = true <-> exists rest, s = search +:+ rest.
Proof.
  revert s. induction search as [|c search IH]; intros s; simpl.
  - split; [intros _; by exists s|done].
  - destruct s as [|d s].
    + split; [done|by intros [? ?]].
    + rewrite andb_true_iff, IH. split.
      * intros [->%Ascii.eqb_eq [rest ->]]. by exists rest.
      * intros [rest [= -> ->]]. split; [apply Ascii.eqb_refl|by exists rest].
Qed.

Lemma classify_file (res : string) :
  startsWith res "file:" = true -> classify res = Some "file".
Proof. by intros [rest ->]%startsWith_spec. Qed.

Lemma classify_http (res : string) :
  startsWith res "http:" = true -> classify res = Some "http".
Proof. by intros [rest ->]%startsWith_spec. Qed.

Lemma classify_https (res : string) :
  startsWith res "https:" = true -> classify res = Some "https".
Proof. by intros [rest ->]%startsWith_spec. Qed.

Lemma classify_npm (res : string) :
  startsWith res "npm:" = true -> classify res = Some "npm".
Proof. by intros [rest ->]%startsWith_spec. Qed.

Lemma classify_jsr (res : string) :
  startsWith res "jsr:" = true -> classify res = Some "jsr".
Proof. by intros [rest ->]%startsWith_spec. Qed.

Lemma classify_other (res : string) :
  startsWith res "file:" = false -> startsWith res "http:" = false ->
  startsWith res "https:" = false -> startsWith res "npm:" = false ->
  startsWith res "jsr:" = false -> classify res = None.
Proof. unfold classify. by intros -> -> -> -> ->. Qed.

(* ================================================================= *)
(** ** The matcher stays within its input and its fuel *)

Lemma follows_refl (x : MatchState) : follows x x.
Proof. unfold follows. lia. Qed.

Lemma follows_trans (x y z : MatchState) :
  follows x y -> follows y z -> follows x z.
Proof. unfold follows. lia. Qed.

Lemma repeat_matcher_forward (step : Matcher) (greedy : bool) :
  forward step ->
  forall fuel : nat, forward (fun k => repeat_matcher step greedy k fuel).
Proof.
  intros Hstep fuel. induction fuel as [|fuel IH]; intros k k' x Hk; [done|].
  cbn [repeat_matcher]. rewrite (Hk x (follows_refl x)).
  rewrite (Hstep _ (fun y => if (endIndex y =? endIndex x)%nat then None
                             else repeat_matcher step greedy k' fuel y) x);
    [done|].
  intros y Hy. destruct (endIndex y =? endIndex x)%nat; [done|].
  apply IH. intros z Hz. apply Hk. by apply (follows_trans x y z).
Qed.

Lemma matcher_forward (r : Regex) : forward (matcher r).
Proof.
  induction r as [|cs|r1 IH1 r2 IH2|r1 IH1 r2 IH2|greedy r IH|index r IH| |];
    intros k k' x Hk; cbn [matcher].
  - apply Hk, follows_refl.
  - destruct (remaining x) as [|c tl] eqn:Hx; [done|].
    destruct (charset_mem cs c); [|done].
    apply Hk. unfold follows. rewrite Hx. simpl. lia.
  - apply IH1. intros y Hy. apply IH2. intros z Hz.
    apply Hk. by apply (follows_trans x y z).
  - by rewrite (IH1 k k' x Hk), (IH2 k k' x Hk).
  - by apply (repeat_matcher_forward (matcher r) greedy IH).
  - apply IH. intros y Hy. apply Hk.
    unfold follows in *. simpl. lia.
  - destruct (endIndex x =? 0)%nat; [|done]. apply Hk, follows_refl.
  - destruct (remaining x); [|done]. apply Hk, follows_refl.
Qed.

(** The fuel of a star is never used up: more of it changes nothing. *)
Lemma repeat_matcher_fuel (r : Regex) (greedy : bool)
    (k : MatchState -> option MatchState) :
  forall (fuel1 fuel2 : nat) (x : MatchState),
    String.length (remaining x) < fuel1 ->
    String.length (remaining x) < fuel2 ->
    repeat_matcher (matcher r) greedy k fuel1 x
    = repeat_matcher (matcher r) greedy k fuel2 x.
Proof.
  induction fuel1 as [|fuel1 IH]; intros fuel2 x H1 H2; [lia|].
  destruct fuel2 as [|fuel2]; [lia|]. cbn [repeat_matcher].
  rewrite (matcher_forward r _
             (fun y => if (endIndex y =? endIndex x)%nat then None
                       else repeat_matcher (matcher r) greedy k fuel2 y) x);
    [done|].
  intros y [Hsum Hle]. destruct (endIndex y =? endIndex x)%nat eqn:Hidx; [done|].
  apply Nat.eqb_neq in Hidx. apply IH; lia.
Qed.

Lemma or_else_Some {A : Type} (a b : option A) (z : A) :
  or_else a b = Some z -> a = Some z \/ b = Some z.
Proof. destruct a; simpl; [by left|by right]. Qed.

Lemma repeat_matcher_reaching (step : Matcher) (greedy : bool) :
  reaching step ->
  forall fuel : nat, reaching (fun k => repeat_matcher step greedy k fuel).
Proof.
  intros Hstep fuel. induction fuel as [|fuel IH]; intros k x z Hz; [done|].
  cbn [repeat_matcher] in Hz.
  assert (forall again,
            again = step (fun y => if (endIndex y =? endIndex x)%nat then None
                                   else repeat_matcher step greedy k fuel y) x ->
            again = Some z \/ k x = Some z ->
            exists y, follows x y /\ k y = Some z) as Hcases.
  { intros again -> [Hagain|Hk]; [|exists x; split; [apply follows_refl|done]].
    apply Hstep in Hagain as (y & Hy & Hcont).
    destruct (endIndex y =? endIndex x)%nat; [done|].
    apply IH in Hcont as (y' & Hy' & Hk). exists y'.
    split; [by apply (follows_trans x y y')|done]. }
  destruct greedy; apply or_else_Some in Hz;
    eapply Hcases; try reflexivity; tauto.
Qed.

Lemma matcher_reaching (r : Regex) : reaching (matcher r).
Proof.
  induction r as [|cs|r1 IH1 r2 IH2|r1 IH1 r2 IH2|greedy r IH|index r IH| |];
    intros k x z Hz; cbn [matcher] in Hz.
  - exists x. split; [apply follows_refl|done].
  - destruct (remaining x) as [|c tl] eqn:Hx; [done|].
    destruct (charset_mem cs c); [|done].
    eexists. split; [|exact Hz]. unfold follows. rewrite Hx. simpl. lia.
  - apply IH1 in Hz as (y & Hy & Hz). apply IH2 in Hz as (y' & Hy' & Hz).
    exists y'. split; [by apply (follows_trans x y y')|done].
  - apply or_else_Some in Hz as [Hz|Hz]; [by apply IH1|by apply IH2].
  - by apply (repeat_matcher_reaching (matcher r) greedy IH) in Hz.
  - apply IH in Hz as (y & Hy & Hz). eexists. split; [|exact Hz].
    unfold follows in *. simpl. lia.
  - destruct (endIndex x =? 0)%nat; [|done].
    exists x. split; [apply follows_refl|done].
  - destruct (remaining x); [|done].
    exists x. split; [apply follows_refl|done].
Qed.

(** A successful match ends further on in the input. *)
Lemma matcher_follows (r : Regex) (x y : MatchState) :
  matcher r Some x = Some y -> follows x y.
Proof. intros (y' & Hy' & [= <-])%matcher_reaching. done. Qed.

(** What [search] finds lies within the input it was given. *)
Lemma search_within (r : Regex) (rest : string) :
  forall (i : nat) (m : MatchResult),
    search r i rest = Some m ->
    i <= m_index m <= m_end m
    /\ m_end m + String.length (m_after m) = i + String.length rest.
Proof.
  induction rest as [|c tl IH]; intros i m; cbn [search];
    destruct (matcher r Some _) as [y|] eqn:Hy.
  - apply matcher_follows in Hy as [Hsum Hle]. intros [= <-]. simpl in *. lia.
  - done.
  - apply matcher_follows in Hy as [Hsum Hle]. intros [= <-]. simpl in *. lia.
  - destruct (search r (Datatypes.S i) tl) as [m'|] eqn:Hm'; [|done].
    intros [= <-]. apply IH in Hm'. simpl in *. lia.
Qed.

(** The fuel of [scan] is never used up: more of it changes nothing. *)
Lemma scan_fuel (r : Regex) :
  forall (fuel1 fuel2 i : nat) (rest : string),
    String.length rest < fuel1 -> String.length rest < fuel2 ->
    scan fuel1 r i rest = scan fuel2 r i rest.
Proof.
  induction fuel1 as [|fuel1 IH]; intros fuel2 i rest H1 H2; [lia|].
  destruct fuel2 as [|fuel2]; [lia|]. cbn [scan].
  destruct (search r i rest) as [m|] eqn:Hm; [|done].
  apply search_within in Hm as [Hidx Hsum]. do 2 f_equal.
  destruct (m_end m =? m_index m)%nat eqn:Hempty.
  - destruct (m_after m) as [|c tl] eqn:Hafter; [done|].
    f_equal. simpl in Hsum. apply IH; lia.
  - apply Nat.eqb_neq in Hempty. apply IH; lia.
Qed.

(** A term takes at least one character of the source. *)
Lemma quantified_shorter (atom t : Regex) (rest rest' : string) :
  quantified atom rest = Some (t, rest') ->
  String.length rest' <= String.length rest.
Proof.
  unfold quantified. intros Hq.
  repeat (case_match; simplify_eq; simpl; try lia).
Qed.

Lemma parse_term_shorter (c : ascii) (tl rest : string) (t : Regex) :
  parse_term c tl = Some (t, rest) -> String.length rest <= String.length tl.
Proof.
  unfold parse_term. intros Hp.
  repeat (case_match; simplify_eq; simpl; try lia);
    match goal with
    | H : quantified _ _ = Some _ |- _ =>
        apply quantified_shorter in H; simpl in *; lia
    end.
Qed.

(** The fuel of the parser is never used up either. *)
Lemma parse_terms_fuel :
  forall (fuel1 fuel2 : nat) (source : string),
    String.length source <= fuel1 -> String.length source <= fuel2 ->
    parse_terms fuel1 source = parse_terms fuel2 source.
Proof.
  induction fuel1 as [|fuel1 IH]; intros fuel2 source H1 H2.
  - destruct source; [by destruct fuel2|simpl in H1; lia].
  - destruct source as [|c tl]; [by destruct fuel2|].
    destruct fuel2 as [|fuel2]; [simpl in H2; lia|].
    cbn [parse_terms]. destruct (parse_term c tl) as [[t rest]|] eqn:Hp; [|done].
    apply parse_term_shorter in Hp. simpl in *. rewrite (IH fuel2); [done|lia..].
Qed.

(* ================================================================= *)
(** ** External Pattern Matcher *)

Lemma append_assoc (a b c : string) : (a +:+ b) +:+ c = a +:+ (b +:+ c).
Proof. induction a as [|x a IH]; simpl; [done|by rewrite IH]. Qed.

Lemma append_empty_r (a : string) : a +:+ EmptyString = a.
Proof. induction a as [|x a IH]; simpl; [done|by rewrite IH]. Qed.

Lemma length_append (a b : string) :
  String.length (a +:+ b) = String.length a + String.length b.
Proof. induction a as [|x a IH]; simpl; [done|by rewrite IH]. Qed.

Lemma expand_append (f : ascii -> string) (a b : string) :
  expand f (a +:+ b) = expand f a +:+ expand f b.
Proof.
  induction a as [|x a IH]; simpl; [done|]. by rewrite IH, append_assoc.
Qed.

Lemma expand_expand (f g : ascii -> string) (s : string) :
  expand g (expand f s) = expand (fun c => expand g (f c)) s.
Proof.
  induction s as [|c tl IH]; [done|].
  simpl. by rewrite expand_append, IH.
Qed.

Lemma expand_ext (f g : ascii -> string) (s : string) :
  (forall c, f c = g c) -> expand f s = expand g s.
Proof.
  intros Hfg. induction s as [|c tl IH]; simpl; [done|]. by rewrite Hfg, IH.
Qed.

(** *** Replacing by a template the matches of a one-character pattern *)

Section SingleCharacter.
Variable cs : CharSet.
Variable template : string.
Variable sub : ascii -> string.
Hypothesis template_sub : forall (c : ascii) (before after : string),
  GetSubstitution (String c EmptyString) before after template = sub c.

(** The first match of [Chars cs]: the first character of [cs], after a
    stretch free of such characters. *)
Lemma search_Chars (rest : string) : forall i : nat,
  match search (Chars cs) i rest with
  | None => expand (replace_one cs sub) rest = rest
  | Some m =>
      exists c, rest = m_skipped m +:+ String c (m_after m)
        /\ charset_mem cs c = true
        /\ expand (replace_one cs sub) (m_skipped m) = m_skipped m
        /\ m_matched m = String c EmptyString
        /\ m_end m <> m_index m
        /\ String.length (m_after m) < String.length rest
  end.
Proof.
  induction rest as [|c tl IH]; intros i; [done|].
  simpl. destruct (charset_mem cs c) eqn:Hmem.
  - simpl. exists c. replace (Datatypes.S i - i) with 1 by lia.
    repeat split; try done; try lia. unfold string_take. simpl. by destruct tl.
  - specialize (IH (Datatypes.S i)).
    destruct (search (Chars cs) (Datatypes.S i) tl) as [m|]; simpl.
    + destruct IH as (d & Htl & Hd & Hsk & Hm & He & Hlen).
      exists d. simpl. repeat split; try done.
      * by rewrite Htl at 1.
      * unfold replace_one at 1. by rewrite Hmem, Hsk.
      * lia.
    + unfold replace_one at 1. by rewrite Hmem, IH.
Qed.

Lemma render_scan (whole : string) (fuel : nat) :
  forall (i : nat) (rest : string),
    String.length rest < fuel ->
    render template whole (scan fuel (Chars cs) i rest)
    = expand (replace_one cs sub) rest.
Proof using template_sub.
  induction fuel as [|fuel IH]; intros i rest Hfuel; [lia|].
  simpl. pose proof (search_Chars rest i) as Hsearch.
  destruct (search (Chars cs) i rest) as [m|]; simpl.
  - destruct Hsearch as (c & Hrest & Hc & Hsk & Hm & He & Hlen).
    apply Nat.eqb_neq in He. rewrite He, Hm, template_sub.
    rewrite IH by lia. rewrite Hrest at 1.
    rewrite expand_append, Hsk. simpl. unfold replace_one at 2.
    by rewrite Hc.
  - by rewrite Hsearch, append_empty_r.
Qed.

Lemma String_replace_Chars (s : string) :
  String_replace (Chars cs) template s = expand (replace_one cs sub) s.
Proof using template_sub. apply (render_scan s). lia. Qed.

End SingleCharacter.

(** *** The source [externalToRegex] builds, and its parse *)

Ltac each_ascii c :=
  destruct c as [[] [] [] [] [] [] [] []]; vm_compute; intuition congruence.

Lemma metachar_escapable (c : ascii) :
  is_metachar c = true ->
  is_identity_escape c = true /\ Ascii.eqb c "*" = false.
Proof. each_ascii c. Qed.

Lemma ordinary_char (c : ascii) :
  is_metachar c = false -> Ascii.eqb c "*" = false ->
  Ascii.eqb c "\" = false /\ Ascii.eqb c "^" = false
  /\ Ascii.eqb c "$" = false /\ Ascii.eqb c "." = false
  /\ Ascii.eqb c "?" = false /\ is_syntax_char c = false.
Proof. each_ascii c. Qed.

Lemma GetSubstitution_escape (c : ascii) (before after : string) :
  GetSubstitution (String c EmptyString) before after "\$&"
  = String "\" (String c EmptyString).
Proof. reflexivity. Qed.

Lemma GetSubstitution_star (c : ascii) (before after : string) :
  GetSubstitution (String c EmptyString) before after ".*" = ".*".
Proof. reflexivity. Qed.

(** The two replacements of [externalToRegex] rewrite the external
    pattern character by character. *)
Lemma pattern_source (external : string) :
  String_replace starReg ".*" (String_replace metacharReg "\$&" external)
  = expand term_source external.
Proof.
  unfold starReg, metacharReg.
  rewrite (String_replace_Chars _ _ (fun c => String "\" (String c EmptyString))
             GetSubstitution_escape).
  rewrite (String_replace_Chars _ _ (fun _ => ".*") GetSubstitution_star).
  rewrite expand_expand. apply expand_ext. intros c.
  unfold replace_one at 2, term_source. fold (is_metachar c).
  destruct (is_metachar c) eqn:Hmeta.
  - apply metachar_escapable in Hmeta as [_ Hstar].
    simpl. unfold replace_one. simpl. by rewrite Hstar.
  - simpl. unfold replace_one. simpl. by destruct (Ascii.eqb c "*").
Qed.

(** What follows a term in the source is never a quantifier. *)
Lemma source_head (pattern : string) :
  exists q rest, expand term_source pattern +:+ "$" = String q rest
    /\ Ascii.eqb q "*" = false /\ Ascii.eqb q "?" = false.
Proof.
  destruct pattern as [|c tl]; simpl; [by eexists _, _|].
  unfold term_source. destruct (is_metachar c) eqn:Hmeta; simpl.
  { by eexists _, _. }
  destruct (Ascii.eqb c "*") eqn:Hstar; simpl; [by eexists _, _|].
  destruct (ordinary_char c Hmeta Hstar) as (_ & _ & _ & _ & Hq & _).
  by eexists _, _.
Qed.

Lemma parse_terms_empty (fuel : nat) : parse_terms fuel EmptyString = Some [].
Proof. by destruct fuel. Qed.

Lemma parse_terms_source (pattern : string) : forall fuel : nat,
  String.length (expand term_source pattern +:+ "$") <= fuel ->
  parse_terms fuel (expand term_source pattern +:+ "$") = Some (terms pattern).
Proof.
  induction pattern as [|c tl IH]; intros fuel Hfuel.
  { destruct fuel; simpl in *; [lia|]. by rewrite parse_terms_empty. }
  simpl expand in *. rewrite append_assoc in *.
  destruct (source_head tl) as (q & rest & Hrest & Hq & Hl).
  rewrite Hrest in *. rewrite length_append in Hfuel.
  unfold term_source in *. simpl terms. unfold term.
  destruct (is_metachar c) eqn:Hmeta.
  - destruct (metachar_escapable c Hmeta) as [Hesc Hstar].
    destruct fuel as [|fuel]; [simpl in Hfuel; lia|].
    simpl in Hfuel. simpl. unfold parse_term, quantified. simpl.
    rewrite Hesc, Hq, Hstar. by rewrite IH by (simpl; lia).
  - destruct (Ascii.eqb c "*") eqn:Hstar.
    + destruct fuel as [|fuel]; [simpl in Hfuel; lia|].
      simpl in Hfuel. simpl. unfold parse_term, quantified. simpl.
      rewrite Hl. by rewrite IH by (simpl; lia).
    + destruct (ordinary_char c Hmeta Hstar) as (H1 & H2 & H3 & H4 & _ & H6).
      destruct fuel as [|fuel]; [simpl in Hfuel; lia|].
      simpl in Hfuel. simpl. unfold parse_term, quantified.
      rewrite H1, H2, H3, H4, H6, Hq. by rewrite IH by (simpl; lia).
Qed.

(** [externalToRegex] always yields a pattern, the one of [glob_regex]. *)
Lemma externalToRegex_glob_regex (external : string) :
  externalToRegex external = Some (glob_regex external).
Proof.
  unfold externalToRegex, RegExp_new. rewrite pattern_source.
  simpl. rewrite parse_terms_source; [done|lia].
Qed.

(** *** What the compiled pattern matches *)

Lemma succeeds_or_else (a b : option MatchState) :
  succeeds (or_else a b) = succeeds a || succeeds b.
Proof. by destruct a. Qed.

Lemma repeat_matcher_greedy
    (step : (MatchState -> option MatchState) -> MatchState
            -> option MatchState)
    (k : MatchState -> option MatchState) (fuel : nat) (x : MatchState) :
  repeat_matcher step true k (Datatypes.S fuel) x
  = or_else
      (step (fun y => if (endIndex y =? endIndex x)%nat then None
                      else repeat_matcher step true k fuel y) x)
      (k x).
Proof. reflexivity. Qed.

(** A greedy [.*] followed by [k]: some run of characters on one line,
    then [k]. *)
Lemma repeat_any_run (k : MatchState -> option MatchState)
    (tail : string -> bool) :
  (forall y, succeeds (k y) = tail (remaining y)) ->
  forall (fuel : nat) (x : MatchState),
    String.length (remaining x) < fuel ->
    succeeds (repeat_matcher (matcher (Chars AnyChar)) true k fuel x)
    = any_run tail (remaining x).
Proof.
  intros Hk fuel. induction fuel as [|fuel IH]; intros x Hfuel; [lia|].
  rewrite repeat_matcher_greedy, succeeds_or_else, Hk.
  destruct x as [i rest caps].
  destruct rest as [|d rest]; cbn [matcher remaining endIndex captures].
  - simpl. by rewrite orb_false_r.
  - cbn [any_run charset_mem]. rewrite orb_comm. f_equal.
    destruct (is_line_terminator d); cbn [negb andb succeeds]; [done|].
    replace (Datatypes.S i =? i) with false
      by (symmetry; apply Nat.eqb_neq; lia).
    apply IH. simpl in *. lia.
Qed.

Lemma matcher_Star (greedy : bool) (r : Regex)
    (k : MatchState -> option MatchState) (x : MatchState) :
  matcher (Star greedy r) k x
  = repeat_matcher (matcher r) greedy k
      (Datatypes.S (String.length (remaining x))) x.
Proof. reflexivity. Qed.

Lemma matcher_terms (pattern : string) : forall x : MatchState,
  succeeds (matcher (foldr Seq Epsilon (terms pattern)) Some x)
  = glob_match pattern (remaining x).
Proof.
  induction pattern as [|c tl IH]; intros x.
  - simpl. by destruct (remaining x).
  - cbn [terms foldr glob_match]. unfold term.
    change (matcher (Seq ?a ?b) ?k x) with (matcher a (matcher b k) x).
    destruct (Ascii.eqb c "*") eqn:Hstar.
    + rewrite matcher_Star. apply repeat_any_run; [apply IH|lia].
    + cbn [matcher charset_mem]. destruct (remaining x) as [|d rest]; [done|].
      destruct (Ascii.eqb d c); [|done]. cbn [andb]. apply IH.
Qed.

(** A pattern that begins with [^] matches at index 0 or not at all. *)
Lemma search_anchored (r : Regex) (rest : string) : forall i : nat,
  search (Seq AssertStart r) (Datatypes.S i) rest = None.
Proof.
  induction rest as [|c tl IH]; intros i; simpl; [done|].
  by rewrite IH.
Qed.

Lemma RegExp_test_glob_regex (pattern s : string) :
  RegExp_test (glob_regex pattern) s = glob_match pattern s.
Proof.
  unfold RegExp_test, glob_regex.
  pose proof (matcher_terms pattern
                {| endIndex := 0; remaining := s; captures := [] |}) as Hm.
  cbn [remaining] in Hm. rewrite <- Hm. clear Hm.
  destruct s as [|c tl]; cbn [search matcher endIndex Nat.eqb].
  - by destruct (matcher _ _ _).
  - destruct (matcher _ _ _); [done|]. by rewrite search_anchored.
Qed.

Lemma glob_match_lodash (s : string) :
  glob_match "lodash" s = true <-> s = "lodash".
Proof.
  split; [|by intros ->].
  simpl.
  repeat (destruct s as [|? s]; [done|];
          match goal with
          | |- context [Ascii.eqb ?a ?b] =>
              destruct (Ascii.eqb_spec a b); [subst|done]
          end; simpl).
  by destruct s.
Qed.

(** C7.  [externalToRegex] compiles every external pattern, and the
    compiled pattern matches a specifier exactly when the pattern,
    anchored at both ends, does with every character other than [*]
    standing for itself and [*] for a run of characters: ["@foo/*"]
    matches ["@foo/bar"] and ["@foo/"] but not ["@foobar"]; ["lodash"]
    matches the string ["lodash"] and no other; and two compilations of
    one pattern match the same strings. *)
Theorem externalToRegex_matches :
  (forall pattern : string, exists reg, externalToRegex pattern = Some reg)
  /\ (forall (pattern : string) (reg : Regex) (s : string),
        externalToRegex pattern = Some reg ->
        RegExp_test reg s = glob_match pattern s)
  /\ (exists reg, externalToRegex "@foo/*" = Some reg
        /\ RegExp_test reg "@foo/bar" = true
        /\ RegExp_test reg "@foo/" = true
        /\ RegExp_test reg "@foobar" = false)
  /\ (exists reg, externalToRegex "lodash" = Some reg
        /\ forall s : string, RegExp_test reg s = true <-> s = "lodash")
  /\ (forall (pattern : string) (reg1 reg2 : Regex) (s : string),
        externalToRegex pattern = Some reg1 ->
        externalToRegex pattern = Some reg2 ->
        RegExp_test reg1 s = RegExp_test reg2 s).
Proof.
  assert (forall (pattern : string) (reg : Regex) (s : string),
            externalToRegex pattern = Some reg ->
            RegExp_test reg s = glob_match pattern s) as Hsem.
  { intros pattern reg s. rewrite externalToRegex_glob_regex.
    intros [= <-]. apply RegExp_test_glob_regex. }
  refine (conj _ (conj Hsem (conj _ (conj _ _)))).
  - intros pattern. exists (glob_regex pattern).
    apply externalToRegex_glob_regex.
  - exists (glob_regex "@foo/*").
    split; [apply externalToRegex_glob_regex|].
    rewrite !RegExp_test_glob_regex. by vm_compute.
  - exists (glob_regex "lodash").
    split; [apply externalToRegex_glob_regex|].
    intros s. rewrite RegExp_test_glob_regex. apply glob_match_lodash.
  - intros pattern reg1 reg2 s H1 H2.
    by rewrite (Hsem _ _ s H1), (Hsem _ _ s H2).
Qed.

(** *** The pattern of the [catch] clause *)

Lemma matcher_lit (s : string) (r : Regex)
    (k : MatchState -> option MatchState) :
  forall (x : MatchState) (rest : string),
    remaining x = s +:+ rest ->
    matcher (lit s r) k x = matcher r k (advance x (String.length s) rest).
Proof.
  induction s as [|c tl IH]; intros x rest Hx.
  - destruct x as [i rem caps]. simpl in *. subst rem.
    unfold advance. simpl. by rewrite Nat.add_0_r.
  - cbn [lit]. cbn [matcher]. rewrite Hx. cbn [String.append charset_mem].
    rewrite Ascii.eqb_refl.
    rewrite (IH {| endIndex := Datatypes.S (endIndex x);
                   remaining := tl +:+ rest;
                   captures := captures x |} rest eq_refl).
    unfold advance. simpl. do 2 f_equal. lia.
Qed.

Lemma repeat_matcher_lazy
    (step : (MatchState -> option MatchState) -> MatchState
            -> option MatchState)
    (k : MatchState -> option MatchState) (fuel : nat) (x : MatchState) :
  repeat_matcher step false k (Datatypes.S fuel) x
  = or_else (k x)
      (step (fun y => if (endIndex y =? endIndex x)%nat then None
                      else repeat_matcher step false k fuel y) x).
Proof. reflexivity. Qed.

(** A lazy [.*?] followed by [k] succeeds when [k] does after some
    stretch of one line. *)
Lemma lazy_any_reaches (k : MatchState -> option MatchState) (spec : string) :
  forall (fuel : nat) (x : MatchState) (rest : string),
    one_line spec = true ->
    remaining x = spec +:+ rest ->
    String.length (remaining x) < fuel ->
    succeeds (k (advance x (String.length spec) rest)) = true ->
    succeeds (repeat_matcher (matcher (Chars AnyChar)) false k fuel x) = true.
Proof.
  induction spec as [|c tl IH]; intros fuel x rest Hline Hx Hfuel Hk;
    (destruct fuel as [|fuel]; [lia|]);
    rewrite repeat_matcher_lazy, succeeds_or_else.
  - destruct x as [i rem caps]. unfold advance in Hk. simpl in *. subst rem.
    rewrite Nat.add_0_r in Hk. by rewrite Hk.
  - apply orb_true_iff. right.
    simpl in Hline. apply andb_true_iff in Hline as [Hc Htl].
    cbn [matcher]. rewrite Hx. cbn [String.append charset_mem]. rewrite Hc.
    cbn [endIndex].
    replace (Datatypes.S (endIndex x) =? endIndex x) with false
      by (symmetry; apply Nat.eqb_neq; lia).
    apply (IH fuel {| endIndex := Datatypes.S (endIndex x);
                      remaining := tl +:+ rest;
                      captures := captures x |} rest Htl eq_refl).
    + rewrite Hx in Hfuel. simpl in *. lia.
    + rewrite <- Hk. unfold advance. cbn [endIndex captures].
      do 3 f_equal. simpl. lia.
Qed.

Lemma RegExp_test_at_start (r : Regex) (s : string) :
  succeeds (matcher r Some
              {| endIndex := 0; remaining := s; captures := [] |}) = true ->
  RegExp_test r s = true.
Proof.
  unfold RegExp_test. intros Hm.
  destruct s; cbn [search]; by destruct (matcher r Some _).
Qed.

(** [couldNotResolveReg] matches the engine's message for every
    specifier written on one line. *)
Lemma couldNotResolveReg_matches (specifier tail : string) :
  one_line specifier = true ->
  RegExp_test couldNotResolveReg (not_prefixed specifier tail) = true.
Proof.
  intros Hline. apply RegExp_test_at_start.
  unfold couldNotResolveReg, not_prefixed.
  erewrite matcher_lit by reflexivity.
  erewrite matcher_lit by reflexivity.
  change (matcher (Seq ?a ?b) ?k ?x) with (matcher a (matcher b k) x).
  rewrite matcher_Star.
  eapply lazy_any_reaches; [exact Hline|reflexivity|simpl; lia|].
  erewrite matcher_lit by reflexivity.
  by erewrite matcher_lit by reflexivity.
Qed.

(** [setup] compiles every list of external patterns. *)
Lemma compile_externals_total (external : option (list string)) :
  compile_externals external = Some (glob_regex <$> default [] external).
Proof.
  unfold compile_externals. apply mapM_Some.
  induction (default [] external) as [|pattern l IH]; simpl;
    constructor; [apply externalToRegex_glob_regex|done].
Qed.

(* ================================================================= *)
(** ** Specifier Resolver *)

Section Resolver.
Context `{Host}.
Variable externals : list Regex.
Context {S : Type}.
Variable E : Engine S.

(** One run of [onResolve] on a specifier that is not external: a single
    call of the engine, then the [try] body or the [catch] clause. *)
Lemma run_onResolve (args : OnResolveArgs) (s : S) :
  is_external externals (resolve_path args) = false ->
  run E (onResolve externals args) s =
    let call := (resolve_path args, resolve_importer args,
                 resolution_mode (resolve_kind args)) in
    let '(c, s') := engine_resolve E s call.1.1 call.1.2 call.2 in
    (match c with
     | Normal res =>
         match resolved res with
         | Normal p =>
             Normal (Some {| result_path := p; result_external := None;
                             result_namespace := classify res |})
         | Throw e => caught e
         end
     | Throw e => caught e
     end, s', [CallResolve call.1.1 call.1.2 call.2]).
Proof.
  unfold is_external, onResolve. intros ->. simpl.
  destruct (engine_resolve E s _ _ _) as [[res|e] s']; simpl.
  - destruct (resolved res) as [p|e]; simpl; [done|].
    unfold caught. by destruct (could_not_resolve e).
  - unfold caught. by destruct (could_not_resolve e).
Qed.

(** C2.  For a specifier that names a builtin module, or that one of the
    compiled external patterns matches, [onResolve] returns
    [{path: specifier, external: true}] whatever the engine: the run
    makes no call and leaves the engine's state as it was. *)
Theorem onResolve_external_short_circuit (args : OnResolveArgs) (s : S) :
  isBuiltin (resolve_path args) = true
  \/ (exists reg, reg ∈ externals
                  /\ RegExp_test reg (resolve_path args) = true) ->
  onResolve externals args = ret (Some (external_result (resolve_path args)))
  /\ run E (onResolve externals args) s
     = (Normal (Some (external_result (resolve_path args))), s, []).
Proof.
  intros Hext.
  assert (is_external externals (resolve_path args) = true) as Hyes.
  { unfold is_external. apply orb_true_iff.
    destruct Hext as [?|(reg & Hin & Htest)]; [by left|right].
    apply existsb_exists. exists reg. by rewrite <- list_elem_of_In. }
  unfold is_external in Hyes. unfold onResolve. by rewrite Hyes.
Qed.

(** C3.  When the engine rejects the resolution of a specifier that is
    not external: if the rejection is an [Error] whose message matches
    [couldNotResolveReg] - as the message "Relative import path ... not
    prefixed with ..." does for every specifier on one line -
    [onResolve] returns [null] and does not throw; in every other case
    it throws the very value the engine rejected with. *)
Theorem onResolve_rejection (args : OnResolveArgs) (s s' : S) (e : Thrown) :
  is_external externals (resolve_path args) = false ->
  engine_resolve E s (resolve_path args) (resolve_importer args)
                 (resolution_mode (resolve_kind args)) = (Throw e, s') ->
  ((exists name message,
      e = ErrorObject name message
      /\ RegExp_test couldNotResolveReg message = true) ->
   (run E (onResolve externals args) s).1.1 = Normal None)
  /\ ((exists name specifier tail,
         e = ErrorObject name (not_prefixed specifier tail)
         /\ one_line specifier = true) ->
      (run E (onResolve externals args) s).1.1 = Normal None)
  /\ ((forall name message,
         e = ErrorObject name message ->
         RegExp_test couldNotResolveReg message = false) ->
      (run E (onResolve externals args) s).1.1 = Throw e).
Proof.
  intros Hnot Hrej. rewrite (run_onResolve args s Hnot). simpl.
  rewrite Hrej. simpl. unfold caught.
  refine (conj _ (conj _ _)).
  - intros (name & message & -> & Hmatch). simpl. by rewrite Hmatch.
  - intros (name & specifier & tail & -> & Hline).
    unfold could_not_resolve. by rewrite couldNotResolveReg_matches.
  - intros Hno. destruct e as [name message|d]; simpl; [|done].
    by rewrite (Hno name message eq_refl).
Qed.

(** C6.  The namespace computed from a resolved URL is the tag of the
    scheme prefix the URL begins with, for each of [file:], [http:],
    [https:], [npm:], [jsr:]; it stays unset for a URL that begins with
    none of them; and it is a function of the URL alone: whatever the
    engine and its state, a result [onResolve] returns for a
    resolution to [res] carries the namespace [classify res]. *)
Theorem classify_total_deterministic (res : string) :
  (startsWith res "file:" = true -> classify res = Some "file") /\
  (startsWith res "http:" = true -> classify res = Some "http") /\
  (startsWith res "https:" = true -> classify res = Some "https") /\
  (startsWith res "npm:" = true -> classify res = Some "npm") /\
  (startsWith res "jsr:" = true -> classify res = Some "jsr") /\
  (startsWith res "file:" = false -> startsWith res "http:" = false ->
   startsWith res "https:" = false -> startsWith res "npm:" = false ->
   startsWith res "jsr:" = false -> classify res = None) /\
  (forall (args : OnResolveArgs) (s s' : S) (r : OnResolveResult),
     is_external externals (resolve_path args) = false ->
     engine_resolve E s (resolve_path args) (resolve_importer args)
                    (resolution_mode (resolve_kind args)) = (Normal res, s') ->
     (run E (onResolve externals args) s).1.1 = Normal (Some r) ->
     result_namespace r = classify res).
Proof.
  split; [apply classify_file|]. split; [apply classify_http|].
  split; [apply classify_https|]. split; [apply classify_npm|].
  split; [apply classify_jsr|]. split; [apply classify_other|].
  intros args s s' r Hnot Hres. rewrite (run_onResolve args s Hnot). simpl.
  rewrite Hres. simpl. destruct (resolved res) as [p|e].
  - by intros [= <-].
  - unfold caught. by destruct (could_not_resolve e).
Qed.

(** C8.  After a successful resolution to [res]: when [res] begins with
    [file:] (namespace [file]) the path [onResolve] returns is
    [fromFileUrl res]; otherwise the path is [res] itself, and the
    namespace the one [classify] gives (possibly unset). *)
Theorem onResolve_path (args : OnResolveArgs) (s s' : S) (res : string) :
  is_external externals (resolve_path args) = false ->
  engine_resolve E s (resolve_path args) (resolve_importer args)
                 (resolution_mode (resolve_kind args)) = (Normal res, s') ->
  (classify res = Some "file" ->
   forall p, fromFileUrl res = Normal p ->
     (run E (onResolve externals args) s).1.1
     = Normal (Some {| result_path := p; result_external := None;
                       result_namespace := Some "file" |}))
  /\ (classify res <> Some "file" ->
      (run E (onResolve externals args) s).1.1
      = Normal (Some {| result_path := res; result_external := None;
                        result_namespace := classify res |})).
Proof.
  intros Hnot Hres. rewrite (run_onResolve args s Hnot). simpl.
  rewrite Hres. simpl. unfold resolved.
  destruct (startsWith res "file:") eqn:Hfile.
  - rewrite (classify_file res Hfile). split; [|done].
    intros _ p ->. done.
  - split; [|done]. unfold classify. rewrite Hfile.
    repeat (case_match; try done).
Qed.

End Resolver.

(* ================================================================= *)
(** ** Load hook and Env-Inlining Rewriter *)

(** Evaluates the search for the matches of a closed text, then unfolds
    the replacer on each. *)
Ltac run_segments :=
  match goal with
  | |- context [segments ?r ?text] =>
      let segs := fresh "segs" in
      set (segs := segments r text); vm_compute in segs; subst segs;
      unfold replace_segments, envReplacer, capture; simpl
  end.

Section LoadHook.
Context `{Host}.
Variable options : DenoPluginOptions.
Context {S : Type}.
Variable E : Engine S.

(** C10.  When [publicEnvVarPrefix] is absent or the empty string, or
    the requested module type is not [Default], a load that the engine
    answers with a module returns the engine's bytes as they are, with
    the loader derived from the media type: no text is decoded and
    nothing is inlined, although every name starts with the empty
    prefix. *)
Theorem onLoad_without_inlining
    (args : OnLoadArgs) (s s' : S) (url specifier : string)
    (mediaType : Z) (code : list Byte.byte) :
  url_of_path (load_path args) = Normal url ->
  engine_load E s url (getModuleType (load_path args) (load_with args))
  = (Normal (ModuleLoadResponse specifier mediaType code), s') ->
  publicEnvVarPrefix options = None
  \/ publicEnvVarPrefix options = Some EmptyString
  \/ getModuleType (load_path args) (load_with args) <> Default ->
  run E (onLoad options args) s
  = (Normal (Some {| contents := ContentsBytes code;
                     loader := mediaToLoader mediaType |}),
     s',
     [CallLoad url (getModuleType (load_path args) (load_with args))])
  /\ (forall name : string, startsWith name EmptyString = true).
Proof.
  intros Hurl Hload Hoff. split; [|apply startsWith_empty].
  unfold onLoad. rewrite Hurl. simpl. rewrite Hload. simpl.
  assert (truthy (publicEnvVarPrefix options)
          && RequestedModuleType_eqb
               (getModuleType (load_path args) (load_with args)) Default
          = false) as ->; [|done].
  destruct Hoff as [->| [->|Hty]]; [done..|].
  apply andb_false_iff. right.
  by destruct (getModuleType (load_path args) (load_with args)).
Qed.

(** With a non-empty prefix and the module type [Default], [onLoad]
    returns as text what [inlineEnv] makes of the decoded code. *)
Lemma onLoad_inlines
    (args : OnLoadArgs) (s s' : S) (url specifier prefix : string)
    (mediaType : Z) (code : list Byte.byte) :
  url_of_path (load_path args) = Normal url ->
  getModuleType (load_path args) (load_with args) = Default ->
  engine_load E s url Default
  = (Normal (ModuleLoadResponse specifier mediaType code), s') ->
  publicEnvVarPrefix options = Some prefix -> prefix <> EmptyString ->
  run E (onLoad options args) s
  = (Completion_bind (inlineEnv prefix (TextDecoder_decode code))
       (fun text => Normal (Some {| contents := ContentsText text;
                                    loader := mediaToLoader mediaType |})),
     s', [CallLoad url Default]).
Proof.
  intros Hurl Hty Hload Hprefix Hne.
  unfold onLoad. rewrite Hurl, Hty, Hprefix. simpl. rewrite Hload. simpl.
  apply String.eqb_neq in Hne. rewrite Hne. simpl.
  by destruct (inlineEnv prefix (TextDecoder_decode code)).
Qed.

(** C4.  With the prefix ["FOO_"]: the getter call for ["FOO_BAR"] is
    replaced by the JSON-quoted value of that variable; the getter call
    for ["BAZ_QUX"] is left as it is; the getter call for a variable
    that is not set is replaced by the text [undefined], which is
    neither empty nor what a variable set to the empty string is
    replaced by (two double quotes). *)
Theorem inlineEnv_precision :
  (forall value : string,
     Deno_env_get "FOO_BAR" = Normal (Some value) ->
     inlineEnv "FOO_" (statement (getter_call "FOO_BAR"))
     = Normal (statement (QuoteJSONString value)))
  /\ inlineEnv "FOO_" (statement (getter_call "BAZ_QUX"))
     = Normal (statement (getter_call "BAZ_QUX"))
  /\ (Deno_env_get "FOO_MISSING" = Normal None ->
      inlineEnv "FOO_" (statement (getter_call "FOO_MISSING"))
      = Normal (statement "undefined"))
  /\ (Deno_env_get "FOO_EMPTY" = Normal (Some EmptyString) ->
      inlineEnv "FOO_" (statement (getter_call "FOO_EMPTY"))
      = Normal (statement (dquote +:+ dquote)))
  /\ statement "undefined" <> statement EmptyString
  /\ statement "undefined" <> statement (dquote +:+ dquote).
Proof.
  unfold inlineEnv, String_replaceAll.
  refine (conj _ (conj _ (conj _ (conj _ (conj _ _))))).
  - intros value Hget. run_segments. rewrite Hget. reflexivity.
  - run_segments. reflexivity.
  - intros Hget. run_segments. rewrite Hget. reflexivity.
  - intros Hget. run_segments. rewrite Hget. reflexivity.
  - discriminate.
  - discriminate.
Qed.

(** The URL handed to the loader is the resolved one for the four
    schemes [onLoad] passes through. *)
Lemma url_of_path_passthrough (res : string) :
  startsWith res "http:" = true \/ startsWith res "https:" = true
  \/ startsWith res "npm:" = true \/ startsWith res "jsr:" = true ->
  resolved res = Normal res /\ url_of_path res = Normal res.
Proof.
  unfold resolved, url_of_path.
  intros [Hs|[Hs|[Hs|Hs]]]; rewrite Hs, ?orb_true_r;
    apply startsWith_spec in Hs as [rest ->]; done.
Qed.

(** The URL handed to the loader for a [file:] URL is derived anew from
    the platform path. *)
Lemma url_of_path_file (res p : string) :
  startsWith res "file:" = true -> fromFileUrl res = Normal p ->
  resolved res = Normal p /\ url_of_path p =
    if startsWith p "http:" || startsWith p "https:"
       || startsWith p "npm:" || startsWith p "jsr:"
    then Normal p else toFileUrl p.
Proof. unfold resolved, url_of_path. by intros -> ->. Qed.

(** C5, at the input where the code departs from it.  Resolution to the
    URL [data:text/javascript,export default 1] returns that URL as the
    path, with no namespace; [onLoad] does not pass a [data:] path
    through but converts it with [toFileUrl], which yields a [file:] URL
    or throws: the loader is never asked for the URL that was resolved. *)
Theorem onLoad_rederives_data_url :
  (forall path url : string,
     toFileUrl path = Normal url -> startsWith url "file:" = true) ->
  let res := "data:text/javascript,export default 1" in
  classify res = None
  /\ resolved res = Normal res
  /\ url_of_path res = toFileUrl res
  /\ url_of_path res <> Normal res
  /\ (forall (attributes : gmap string string) (s : S)
             (requested : RequestedModuleType),
        CallLoad res requested
          ∉ (run E (onLoad options (load_args res attributes)) s).2).
Proof.
  intros Hfile res.
  assert (url_of_path res <> Normal res) as Hne.
  { unfold url_of_path. simpl. intros Heq. by apply Hfile in Heq. }
  refine (conj _ (conj _ (conj _ (conj _ _)))); try done.
  intros attributes s requested. unfold onLoad. simpl.
  change (toFileUrl res) with (url_of_path res).
  destruct (url_of_path res) as [url|e] eqn:Hurl; simpl; [|set_solver].
  destruct (engine_load E s url _) as [[[sp|sp mt code]|e] s'] eqn:Hload;
    simpl.
  - intros [[= -> _]|Hin]%elem_of_cons; [done|set_solver].
  - destruct (_ && _); simpl.
    + destruct (inlineEnv _ _); simpl;
        intros [[= -> _]|Hin]%elem_of_cons; try done; set_solver.
    + intros [[= -> _]|Hin]%elem_of_cons; [done|set_solver].
  - intros [[= -> _]|Hin]%elem_of_cons; [done|set_solver].
Qed.

End LoadHook.

(* ================================================================= *)
(** ** The hooks on the sample host *)

Lemma onResolve_external_short_circuit_witness :
  onResolve (H := sample_host) sample_externals (resolve_args "@foo/bar")
  = ret (Some (external_result "@foo/bar"))
  /\ run sample_engine
       (onResolve (H := sample_host) sample_externals (resolve_args "@foo/bar"))
       0
     = (Normal (Some (external_result "@foo/bar")), 0, []).
Proof.
  apply (onResolve_external_short_circuit (H := sample_host)
           sample_externals sample_engine (resolve_args "@foo/bar") 0).
  right. eexists. split; [apply list_elem_of_here|]. vm_compute. reflexivity.
Defined.

Lemma onResolve_rejection_witness :
  (run sample_engine
     (onResolve (H := sample_host) sample_externals (resolve_args "lib")) 0).1.1
  = Normal None
  /\ (run sample_engine
        (onResolve (H := sample_host) sample_externals (resolve_args "./b.ts"))
        0).1.1
     = Throw (ErrorObject "Error" "Module not found").
Proof.
  split.
  - refine (proj1 (onResolve_rejection (H := sample_host) sample_externals
                     sample_engine (resolve_args "lib") 0 1
                     (ErrorObject "Error" (not_prefixed_message "lib"))
                     _ _) _).
    + vm_compute. reflexivity.
    + vm_compute. reflexivity.
    + eexists _, _. split; [reflexivity|]. vm_compute. reflexivity.
  - refine (proj2 (proj2 (onResolve_rejection (H := sample_host)
                     sample_externals sample_engine (resolve_args "./b.ts")
                     0 1 (ErrorObject "Error" "Module not found") _ _)) _).
    + vm_compute. reflexivity.
    + vm_compute. reflexivity.
    + intros name message [= <- <-]. vm_compute. reflexivity.
Defined.

Lemma classify_total_deterministic_witness :
  classify "https://example.com/a.ts" = Some "https"
  /\ classify "data:text/javascript,export default 1" = None.
Proof.
  split.
  - apply (classify_total_deterministic (H := sample_host) sample_externals
             sample_engine "https://example.com/a.ts").
    vm_compute. reflexivity.
  - apply (classify_total_deterministic (H := sample_host) sample_externals
             sample_engine "data:text/javascript,export default 1");
      vm_compute; reflexivity.
Defined.

Lemma onResolve_path_witness :
  (run sample_engine
     (onResolve (H := sample_host) sample_externals (resolve_args "./local.ts"))
     0).1.1
  = Normal (Some {| result_path := "/src/local.ts"; result_external := None;
                    result_namespace := Some "file" |})
  /\ (run sample_engine
        (onResolve (H := sample_host) sample_externals (resolve_args "./a.ts"))
        0).1.1
     = Normal (Some {| result_path := "https://example.com/a.ts";
                       result_external := None;
                       result_namespace := Some "https" |}).
Proof.
  split.
  - apply (onResolve_path (H := sample_host) sample_externals sample_engine
             (resolve_args "./local.ts") 0 1 "file:///src/local.ts");
      vm_compute; reflexivity.
  - apply (onResolve_path (H := sample_host) sample_externals sample_engine
             (resolve_args "./a.ts") 0 1 "https://example.com/a.ts");
      [vm_compute; reflexivity ..|vm_compute; discriminate].
Defined.

Lemma onLoad_without_inlining_witness :
  run sample_engine
    (onLoad (H := sample_host) (sample_options (Some EmptyString))
            (load_args "/src/local.ts" ∅)) 0
  = (Normal (Some {| contents := ContentsBytes []; loader := L_ts |}), 1,
     [CallLoad "file:///src/local.ts" Default]).
Proof.
  refine (proj1 (onLoad_without_inlining (H := sample_host)
                   (sample_options (Some EmptyString)) sample_engine
                   (load_args "/src/local.ts" ∅) 0 1
                   "file:///src/local.ts" "file:///src/local.ts"
                   MediaType.TypeScript [] _ _ _)).
  - vm_compute. reflexivity.
  - vm_compute. reflexivity.
  - right. left. reflexivity.
Defined.

Lemma inlineEnv_precision_witness :
  inlineEnv (H := sample_host) "FOO_" (statement (getter_call "FOO_BAR"))
  = Normal (statement (QuoteJSONString "baz"))
  /\ inlineEnv (H := sample_host) "FOO_" (statement (getter_call "FOO_MISSING"))
     = Normal (statement "undefined")
  /\ inlineEnv (H := sample_host) "FOO_" (statement (getter_call "FOO_EMPTY"))
     = Normal (statement (dquote +:+ dquote)).
Proof.
  destruct (inlineEnv_precision (H := sample_host))
    as (Hset & _ & Hmissing & Hempty & _).
  refine (conj _ (conj _ _)).
  - apply Hset. vm_compute. reflexivity.
  - apply Hmissing. vm_compute. reflexivity.
  - apply Hempty. vm_compute. reflexivity.
Defined.

Lemma sample_toFileUrl_file (path url : string) :
  toFileUrl (Host := sample_host) path = Normal url ->
  startsWith url "file:" = true.
Proof.
  unfold toFileUrl, sample_host.
  destruct (startsWith path "/"); [by intros [= <-]|done].
Qed.

Lemma onLoad_rederives_data_url_witness :
  url_of_path (H := sample_host) "data:text/javascript,export default 1"
  <> Normal "data:text/javascript,export default 1".
Proof.
  apply (onLoad_rederives_data_url (H := sample_host) (sample_options None)
           sample_engine sample_toFileUrl_file).
Defined.

(* ================================================================= *)
(** * Further properties *)

(* ================================================================= *)
(** ** Resolve hook *)

Section ResolveHook.
Context `{Host}.
Variable externals : list Regex.
Variable options : DenoPluginOptions.
Context {S : Type}.
Variable E : Engine S.

(** X1.  For a specifier that is neither builtin nor matched by an
    external pattern, [onResolve] asks the engine exactly once, with the
    path and the importer it was given and the mode [Require] exactly
    for the kinds [require-call] and [require-resolve]; and no result
    it returns is marked external. *)
Theorem onResolve_delegates (args : OnResolveArgs) (s : S) :
  is_external externals (resolve_path args) = false ->
  (run E (onResolve externals args) s).2
  = [CallResolve (resolve_path args) (resolve_importer args)
       (resolution_mode (resolve_kind args))]
  /\ (resolution_mode (resolve_kind args) = ModeRequire
      <-> resolve_kind args = require_call
          \/ resolve_kind args = require_resolve)
  /\ (forall r : OnResolveResult,
        (run E (onResolve externals args) s).1.1 = Normal (Some r) ->
        result_external r = None).
Proof.
  intros Hnot. rewrite (run_onResolve externals E args s Hnot). simpl.
  destruct (engine_resolve E s _ _ _) as [c s'] eqn:Hcall. simpl.
  refine (conj eq_refl (conj _ _)).
  - destruct (resolve_kind args); simpl; split; intros Hkind;
      first [done | by left | by right | by destruct Hkind].
  - intros r. unfold caught.
    destruct c as [res|e]; [destruct (resolved res) as [p|e]|];
      try (destruct (could_not_resolve e); done).
    by intros [= <-].
Qed.

(** X2.  The [try] block of [onResolve] covers the conversion of a
    [file:] URL: when [fromFileUrl] throws, the [catch] clause treats
    the thrown value like a rejection of the engine - [null] for an
    [Error] whose message matches [couldNotResolveReg], the value
    rethrown otherwise. *)
Theorem onResolve_conversion_failure
    (args : OnResolveArgs) (s s' : S) (res : string) (e : Thrown) :
  is_external externals (resolve_path args) = false ->
  engine_resolve E s (resolve_path args) (resolve_importer args)
                 (resolution_mode (resolve_kind args)) = (Normal res, s') ->
  startsWith res "file:" = true ->
  fromFileUrl res = Throw e ->
  (run E (onResolve externals args) s).1.1
  = if could_not_resolve e then Normal None else Throw e.
Proof.
  intros Hnot Hres Hfile Hthrow.
  rewrite (run_onResolve externals E args s Hnot). simpl.
  rewrite Hres. simpl. unfold resolved. by rewrite Hfile, Hthrow.
Qed.

(** X3.  A specifier that one of the configured external patterns globs
    is answered [{path, external: true}] without a call of the engine:
    [setup] compiles every list of patterns, and the compiled patterns
    match as the globs do. *)
Theorem onResolve_configured_external
    (patterns : list string) (pattern : string)
    (args : OnResolveArgs) (s : S) :
  pattern ∈ patterns ->
  glob_match pattern (resolve_path args) = true ->
  exists compiled,
    compile_externals (Some patterns) = Some compiled
    /\ run E (onResolve compiled args) s
       = (Normal (Some (external_result (resolve_path args))), s, []).
Proof.
  intros Hin Hglob. exists (glob_regex <$> patterns).
  split; [apply compile_externals_total|].
  unfold onResolve.
  assert (existsb (fun reg => RegExp_test reg (resolve_path args))
                  (glob_regex <$> patterns) = true) as ->.
  { apply existsb_exists. exists (glob_regex pattern). split.
    - apply list_elem_of_In, list_elem_of_fmap. by exists pattern.
    - by rewrite RegExp_test_glob_regex. }
  by rewrite orb_true_r.
Qed.

(** X4.  Resolve, then load, for the schemes [onLoad] passes through:
    when the engine resolves a specifier to a URL that begins with
    [http:], [https:], [npm:] or [jsr:], [onResolve] returns that URL
    as the path, and [onLoad] on that path asks the loader for exactly
    that URL, once, whatever the import attributes. *)
Theorem resolve_then_load_passthrough
    (args : OnResolveArgs) (s s' : S) (res : string) :
  is_external externals (resolve_path args) = false ->
  engine_resolve E s (resolve_path args) (resolve_importer args)
                 (resolution_mode (resolve_kind args)) = (Normal res, s') ->
  startsWith res "http:" = true \/ startsWith res "https:" = true
  \/ startsWith res "npm:" = true \/ startsWith res "jsr:" = true ->
  exists r,
    (run E (onResolve externals args) s).1.1 = Normal (Some r)
    /\ result_path r = res
    /\ forall (namespace : string) (attributes : gmap string string) (s1 : S),
         (run E (onLoad options
                   {| load_path := result_path r; load_namespace := namespace;
                      load_with := attributes |}) s1).2
         = [CallLoad res (getModuleType res attributes)].
Proof.
  intros Hnot Hres Hscheme.
  destruct (url_of_path_passthrough res Hscheme) as [Hresolved Hurl].
  eexists. split.
  { rewrite (run_onResolve externals E args s Hnot). simpl.
    rewrite Hres. simpl. by rewrite Hresolved. }
  split; [done|]. intros namespace attributes s1. simpl.
  unfold onLoad. simpl. rewrite Hurl. simpl.
  destruct (engine_load E s1 res _) as [[[sp|sp mt code]|e] s2]; simpl;
    try done.
  destruct (_ && _); simpl; [|done].
  by destruct (inlineEnv _ _).
Qed.

(** X5.  Resolve, then load, for a [file:] URL on a host whose path
    conversions round-trip on it: [onResolve] returns the platform path
    with the namespace [file], and [onLoad] on that path asks the
    loader for the URL that was resolved. *)
Theorem resolve_then_load_file
    (args : OnResolveArgs) (s s' : S) (res p : string) :
  is_external externals (resolve_path args) = false ->
  engine_resolve E s (resolve_path args) (resolve_importer args)
                 (resolution_mode (resolve_kind args)) = (Normal res, s') ->
  startsWith res "file:" = true ->
  fromFileUrl res = Normal p ->
  startsWith p "/" = true ->
  toFileUrl p = Normal res ->
  (run E (onResolve externals args) s).1.1
  = Normal (Some {| result_path := p; result_external := None;
                    result_namespace := Some "file" |})
  /\ forall (attributes : gmap string string) (s1 : S),
       (run E (onLoad options (load_args p attributes)) s1).2
       = [CallLoad res (getModuleType p attributes)].
Proof.
  intros Hnot Hres Hfile Hfrom Habs Hto. split.
  { rewrite (run_onResolve externals E args s Hnot). simpl.
    rewrite Hres. simpl. unfold resolved.
    by rewrite Hfile, Hfrom, (classify_file res Hfile). }
  assert (url_of_path p = Normal res) as Hurl.
  { rewrite <- Hto. clear Hto Hfrom. unfold url_of_path.
    by apply startsWith_spec in Habs as [rest ->]. }
  intros attributes s1. unfold onLoad. simpl. rewrite Hurl. simpl.
  destruct (engine_load E s1 res _) as [[[sp|sp mt code]|e] s2]; simpl;
    try done.
  destruct (_ && _); simpl; [|done].
  by destruct (inlineEnv _ _).
Qed.

(** X6.  The outcomes of [onLoad] that yield no module.  When the path
    cannot be converted to a URL the hook throws before the loader is
    asked; a rejection of the loader is thrown on as it is; an external
    response gives [null].  None of this depends on the options. *)
Theorem onLoad_no_module (args : OnLoadArgs) (s : S) :
  (forall e, url_of_path (load_path args) = Throw e ->
     run E (onLoad options args) s = (Throw e, s, []))
  /\ (forall url e s',
        url_of_path (load_path args) = Normal url ->
        engine_load E s url (getModuleType (load_path args) (load_with args))
        = (Throw e, s') ->
        run E (onLoad options args) s
        = (Throw e, s',
           [CallLoad url (getModuleType (load_path args) (load_with args))]))
  /\ (forall url specifier s',
        url_of_path (load_path args) = Normal url ->
        engine_load E s url (getModuleType (load_path args) (load_with args))
        = (Normal (ExternalLoadResponse specifier), s') ->
        run E (onLoad options args) s
        = (Normal None, s',
           [CallLoad url (getModuleType (load_path args) (load_with args))])).
Proof.
  unfold onLoad. refine (conj _ (conj _ _)).
  - by intros e ->.
  - intros url e s' -> Hload. simpl. by rewrite Hload.
  - intros url specifier s' -> Hload. simpl. by rewrite Hload.
Qed.

End ResolveHook.

(* ================================================================= *)
(** ** Registrations *)

(** X7.  Every namespace the classifier can give a resolved URL has a
    load handler and a resolve handler registered, and the filter of
    the registrations accepts every path; the namespace [data], though
    registered, is one the classifier never gives. *)
Theorem registrations_cover_classify :
  (forall res namespace : string,
     classify res = Some namespace ->
     namespace ∈ onLoad_namespaces
     /\ Some namespace ∈ onResolve_namespaces)
  /\ (forall path : string, RegExp_test filterAll path = true)
  /\ (forall res : string, classify res <> Some "data")
  /\ "data" ∈ onLoad_namespaces.
Proof.
  refine (conj _ (conj _ (conj _ _))).
  - intros res namespace. unfold classify, onLoad_namespaces,
      onResolve_namespaces.
    repeat case_match; intros [= <-]; split; set_solver.
  - intros path. apply RegExp_test_at_start.
    unfold filterAll. rewrite matcher_Star.
    cbn [repeat_matcher]. rewrite succeeds_or_else.
    apply orb_true_iff.
    destruct (succeeds (matcher (Chars AnyChar) _ _)); [by left|by right].
  - intros res. unfold classify. repeat case_match; done.
  - set_solver.
Qed.

(* ================================================================= *)
(** ** Module Type Selector *)

Lemma substring_skip (a b : string) :
  String.substring (String.length a) (String.length b) (a +:+ b) = b.
Proof.
  induction a as [|c a IH]; simpl; [|done].
  induction b as [|d b IHb]; simpl; [done|by rewrite IHb].
Qed.

Lemma endsWith_append (stem suffix : string) :
  endsWith (stem +:+ suffix) suffix = true.
Proof.
  unfold endsWith. rewrite length_append.
  replace (String.length stem + String.length suffix - String.length suffix)
    with (String.length stem) by lia.
  rewrite substring_skip, String.eqb_refl.
  apply andb_true_iff. split; [apply Nat.leb_le; lia|done].
Qed.

(** X8.  Only the attribute [type] matters to [getModuleType]: any
    other attribute may be added or changed without effect.  And a
    path with the extension [.json], whatever its stem, is requested as
    [Json] unless the attribute says [text] or [bytes]. *)
Theorem getModuleType_frame
    (file key value : string) (w : gmap string string) :
  key <> "type" ->
  getModuleType file (<[key := value]> w) = getModuleType file w
  /\ getModuleType file (delete key w) = getModuleType file w
  /\ (w !! "type" <> Some "text" -> w !! "type" <> Some "bytes" ->
      getModuleType (file +:+ ".json") w = Json).
Proof.
  intros Hkey. unfold getModuleType.
  rewrite lookup_insert_ne by done. rewrite lookup_delete_ne by done.
  refine (conj eq_refl (conj eq_refl _)).
  intros Ht Hb. rewrite endsWith_append.
  destruct (w !! "type") as [v|]; [|done].
  destruct (decide (v = "text")) as [->|]; [done|].
  destruct (decide (v = "bytes")) as [->|]; [done|].
  repeat (match goal with
          | |- context [match ?x with _ => _ end] =>
              is_var x; destruct x; try done
          end).
Qed.

(* ================================================================= *)
(** ** External patterns *)

Lemma glob_match_star_free (pattern : string) : forall s : string,
  star_free pattern = true ->
  (glob_match pattern s = true <-> s = pattern).
Proof.
  induction pattern as [|c tl IH]; intros s Hfree.
  - simpl. apply String.eqb_eq.
  - unfold star_free in Hfree. simpl in Hfree.
    apply andb_true_iff in Hfree as [Hc Htl].
    apply negb_true_iff in Hc. cbn [glob_match]. rewrite Hc.
    destruct s as [|d s]; [done|].
    rewrite andb_true_iff, (IH s Htl), Ascii.eqb_eq. split.
    + by intros [-> ->].
    + by intros [= -> ->].
Qed.

Lemma any_run_end (s : string) :
  any_run (fun t => String.eqb t EmptyString) s = one_line s.
Proof.
  induction s as [|d s IH]; [done|].
  cbn [any_run one_line]. by rewrite IH.
Qed.

Lemma glob_match_prefix (stem : string) : forall s : string,
  star_free stem = true ->
  (glob_match (stem +:+ "*") s = true
   <-> exists rest, s = stem +:+ rest /\ one_line rest = true).
Proof.
  induction stem as [|c tl IH]; intros s Hfree.
  - cbn [String.append glob_match Ascii.eqb Bool.eqb]. rewrite any_run_end.
    split; [intros Hline; by exists s|by intros (rest & -> & Hline)].
  - unfold star_free in Hfree. simpl in Hfree.
    apply andb_true_iff in Hfree as [Hc Htl].
    apply negb_true_iff in Hc. cbn [String.append glob_match]. rewrite Hc.
    destruct s as [|d s]; [split; [done|by intros (rest & ? & _)]|].
    rewrite andb_true_iff, (IH s Htl), Ascii.eqb_eq. split.
    + intros [-> (rest & -> & Hline)]. by exists rest.
    + intros (rest & [= -> ->] & Hline). split; [done|by exists rest].
Qed.

(** X9.  An external pattern without [*] matches the specifier equal to
    it and no other: the characters that are special in a regular
    expression stand for themselves. *)
Theorem externalToRegex_exact (pattern s : string) (reg : Regex) :
  star_free pattern = true ->
  externalToRegex pattern = Some reg ->
  (RegExp_test reg s = true <-> s = pattern).
Proof.
  intros Hfree. rewrite externalToRegex_glob_regex. intros [= <-].
  rewrite RegExp_test_glob_regex. by apply glob_match_star_free.
Qed.

(** X10.  An external pattern [stem*], with no [*] in [stem], matches
    exactly the specifiers that begin with [stem] and go on without a
    line terminator. *)
Theorem externalToRegex_prefix (stem s : string) (reg : Regex) :
  star_free stem = true ->
  externalToRegex (stem +:+ "*") = Some reg ->
  (RegExp_test reg s = true
   <-> exists rest, s = stem +:+ rest /\ one_line rest = true).
Proof.
  intros Hfree. rewrite externalToRegex_glob_regex. intros [= <-].
  rewrite RegExp_test_glob_regex. by apply glob_match_prefix.
Qed.

(* ================================================================= *)
(** ** Env-Inlining Rewriter *)

Lemma matcher_lit_mismatch (s : string) (r : Regex)
    (k : MatchState -> option MatchState) : forall x : MatchState,
  startsWith (remaining x) s = false -> matcher (lit s r) k x = None.
Proof.
  induction s as [|c tl IH]; intros x Hx; [done|].
  cbn [lit matcher charset_mem]. cbn [startsWith] in Hx.
  destruct (remaining x) as [|d rest]; [done|].
  destruct (Ascii.eqb d c); [|done]. by apply IH.
Qed.

Lemma matcher_Alt (r1 r2 : Regex) (k : MatchState -> option MatchState)
    (x : MatchState) :
  matcher (Alt r1 r2) k x = or_else (matcher r1 k x) (matcher r2 k x).
Proof. reflexivity. Qed.

Lemma matcher_Seq (r1 r2 : Regex) (k : MatchState -> option MatchState)
    (x : MatchState) :
  matcher (Seq r1 r2) k x = matcher r1 (matcher r2 k) x.
Proof. reflexivity. Qed.

Lemma matcher_Group (index : nat) (r : Regex)
    (k : MatchState -> option MatchState) (x : MatchState) :
  matcher (Group index r) k x
  = matcher r
      (fun y =>
         k {| endIndex := endIndex y; remaining := remaining y;
              captures :=
                (index, string_take (endIndex y - endIndex x) (remaining x))
                  :: captures y |}) x.
Proof. reflexivity. Qed.

Lemma matcher_Chars_hit (cs : CharSet) (k : MatchState -> option MatchState)
    (x : MatchState) (c : ascii) (tl : string) :
  remaining x = String c tl -> charset_mem cs c = true ->
  matcher (Chars cs) k x
  = k {| endIndex := S (endIndex x); remaining := tl;
         captures := captures x |}.
Proof. intros Hx Hc. cbn [matcher]. by rewrite Hx, Hc. Qed.

Lemma matcher_Chars_miss (cs : CharSet) (k : MatchState -> option MatchState)
    (x : MatchState) (c : ascii) (tl : string) :
  remaining x = String c tl -> charset_mem cs c = false ->
  matcher (Chars cs) k x = None.
Proof. intros Hx Hc. cbn [matcher]. by rewrite Hx, Hc. Qed.

(** A greedy star over a run of characters of [cs] offers every
    position of the run to its continuation, the furthest first. *)
Lemma star_greedy_positions (cs : CharSet)
    (k : MatchState -> option MatchState) (body : string) :
  forall (fuel i : nat) (caps : list (nat * string)) (rest : string),
    all_chars (charset_mem cs) body = true ->
    match rest with
    | EmptyString => True
    | String c _ => charset_mem cs c = false
    end ->
    String.length (body +:+ rest) < fuel ->
    repeat_matcher (matcher (Chars cs)) true k fuel
      {| endIndex := i; remaining := body +:+ rest; captures := caps |}
    = try_positions k i caps body rest.
Proof.
  induction body as [|c tl IH]; intros fuel i caps rest Hall Hrest Hfuel;
    (destruct fuel as [|fuel]; [lia|]); rewrite repeat_matcher_greedy;
    cbn [matcher remaining endIndex captures String.append try_positions].
  - destruct rest as [|c rest]; [done|]. by rewrite Hrest.
  - cbn [all_chars] in Hall. apply andb_true_iff in Hall as [-> Hall].
    replace (S i =? i) with false by (symmetry; apply Nat.eqb_neq; lia).
    rewrite IH; [done..|]. simpl in Hfuel. lia.
Qed.

Lemma try_positions_skip (k : MatchState -> option MatchState)
    (caps : list (nat * string)) (a b rest : string) (z : MatchState) :
  forall i : nat,
    try_positions k (i + String.length a) caps b rest = Some z ->
    try_positions k i caps (a +:+ b) rest = Some z.
Proof.
  induction a as [|c a IH]; intros i Hz.
  - by rewrite Nat.add_0_r in Hz.
  - cbn [String.append try_positions]. rewrite (IH (S i)); [done|].
    by replace (S i + String.length a)
      with (i + String.length (String c a)) by (simpl; lia).
Qed.

Lemma try_positions_end (k : MatchState -> option MatchState)
    (caps : list (nat * string)) (a rest : string) (z : MatchState) (i : nat) :
  k {| endIndex := i + String.length a; remaining := rest; captures := caps |}
  = Some z ->
  try_positions k i caps a rest = Some z.
Proof.
  intros Hz. rewrite <- (append_empty_r a).
  by apply try_positions_skip.
Qed.

Lemma string_take_append (a b : string) :
  string_take (String.length a) (a +:+ b) = a.
Proof.
  unfold string_take. induction a as [|c a IH]; simpl; [by destruct b|].
  by rewrite IH.
Qed.

Lemma string_take_all (a : string) : string_take (String.length a) a = a.
Proof. by rewrite <- (append_empty_r a) at 2; rewrite string_take_append. Qed.

(** The pieces of a text that the pattern matches as a whole. *)
Lemma segments_whole (r : Regex) (text : string)
    (caps : list (nat * string)) :
  text <> EmptyString ->
  matcher r Some {| endIndex := 0; remaining := text; captures := [] |}
  = Some {| endIndex := String.length text; remaining := EmptyString;
            captures := caps |} ->
  search r (String.length text) EmptyString = None ->
  segments r text
  = [Kept EmptyString;
     Hit {| m_index := 0; m_skipped := EmptyString; m_matched := text;
            m_captures := caps; m_end := String.length text;
            m_after := EmptyString |};
     Kept EmptyString].
Proof.
  intros Hne Hm Hend. unfold segments.
  assert (search r 0 text
          = Some {| m_index := 0; m_skipped := EmptyString; m_matched := text;
                    m_captures := caps; m_end := String.length text;
                    m_after := EmptyString |}) as Hsearch.
  { destruct text as [|c tl]; [done|]. cbn [search]. rewrite Hm.
    cbn [endIndex captures remaining]. rewrite Nat.sub_0_r.
    by rewrite string_take_all. }
  destruct (String.length text) as [|n] eqn:Hlen; [by destruct text|].
  cbn [scan]. rewrite Hsearch.
  cbn [m_end m_index m_skipped m_after Nat.eqb scan]. by rewrite Hend.
Qed.

Lemma replace_whole (replacer : MatchResult -> Completion (option string))
    (m : MatchResult) :
  replace_segments replacer [Kept EmptyString; Hit m; Kept EmptyString]
  = Completion_bind (replacer m) (fun v => Normal (ToString v)).
Proof.
  cbn [replace_segments]. destruct (replacer m) as [v|e]; [|done].
  simpl. by rewrite append_empty_r.
Qed.

Section Rewriter.
Context `{Host}.

Lemma search_envReg_end (i : nat) : search envReg i EmptyString = None.
Proof. reflexivity. Qed.

Lemma quote_class (q : ascii) :
  is_quote q = true ->
  charset_mem (CharClass false [ItemChar dquote_char; ItemChar "'"]) q = true
  /\ charset_mem (CharClass false [ItemChar "'"; ItemChar dquote_char]) q = true
  /\ charset_mem (CharClass true [ItemChar ")"]) q = true.
Proof.
  unfold is_quote. intros [->%Ascii.eqb_eq| ->%Ascii.eqb_eq]%orb_true_iff;
    by vm_compute.
Qed.

(** The match of the getter shape: the whole text, with the name as
    the first capture. *)
Lemma matcher_getter (q1 q2 : ascii) (name : string) :
  is_quote q1 = true -> is_quote q2 = true ->
  name <> EmptyString ->
  all_chars (fun c => negb (Ascii.eqb c ")")) name = true ->
  matcher envReg Some
    {| endIndex := 0; remaining := getter_text q1 q2 name; captures := [] |}
  = Some {| endIndex := String.length (getter_text q1 q2 name);
            remaining := EmptyString; captures := [(1, name)] |}.
Proof.
  intros Hq1 Hq2 Hne Hname.
  destruct (quote_class q1 Hq1) as (Hopen & _ & _).
  destruct (quote_class q2 Hq2) as (_ & Hclose & Hbody).
  destruct name as [|c0 name]; [done|]. clear Hne.
  cbn [all_chars] in Hname. apply andb_true_iff in Hname as [Hc0 Hname].
  replace (getter_text q1 q2 (String c0 name))
    with ("Deno.env.get("
            +:+ String q1 (String c0 ((name +:+ String q2 EmptyString) +:+ ")")))
    by (unfold getter_text; cbn [String.append]; by rewrite append_assoc).
  unfold envReg. rewrite matcher_Alt.
  erewrite matcher_lit by reflexivity. unfold advance.
  cbn [endIndex captures remaining].
  rewrite matcher_Seq.
  erewrite matcher_Chars_hit; [|reflexivity|exact Hopen].
  cbn [endIndex captures remaining].
  rewrite matcher_Seq, matcher_Group. unfold Plus.
  rewrite matcher_Seq.
  erewrite matcher_Chars_hit;
    [|reflexivity
     |cbn [charset_mem existsb item_mem xorb orb]; by rewrite orb_false_r].
  cbn [endIndex captures remaining]. rewrite matcher_Star.
  cbn [remaining].
  rewrite (star_greedy_positions _ _ (name +:+ String q2 EmptyString) _ _ _ ")").
  - erewrite try_positions_skip; [reflexivity|].
    cbn [try_positions endIndex captures remaining String.append].
    rewrite matcher_Seq.
    erewrite matcher_Chars_miss; [|reflexivity|reflexivity].
    cbn [or_else]. rewrite matcher_Seq.
    erewrite matcher_Chars_hit; [|reflexivity|exact Hclose].
    cbn [endIndex captures remaining].
    erewrite matcher_lit by reflexivity. unfold advance.
    cbn [matcher endIndex captures remaining].
    do 2 f_equal.
    + cbn [String.length]. rewrite !length_append. simpl. lia.
    + do 2 f_equal.
      replace (S (S (0 + String.length "Deno.env.get(")) + String.length name
               - S (0 + String.length "Deno.env.get("))
        with (String.length (String c0 name)) by (simpl; lia).
      rewrite append_assoc.
      change (String c0 (name +:+ ?t)) with (String c0 name +:+ t).
      by rewrite string_take_append.
  - clear -Hname Hbody. induction name as [|c name IH].
    + cbn [String.append all_chars]. by rewrite Hbody.
    + cbn [String.append all_chars] in *.
      apply andb_true_iff in Hname as [Hc Hname].
      rewrite (IH Hname), andb_true_r.
      cbn [charset_mem existsb item_mem xorb orb]. by rewrite orb_false_r.
  - done.
  - simpl. lia.
Qed.

Lemma getter_text_nonempty (q1 q2 : ascii) (name : string) :
  getter_text q1 q2 name <> EmptyString.
Proof. done. Qed.

(** X11.  The getter shape, for every name.  With either quote
    character on either side and a non-empty name without [)], the text
    [Deno.env.get(<quote>name<quote>)] is replaced, when the name
    starts with the prefix, by [JSON.stringify] of the variable of that
    name - an error thrown by [Deno.env.get] being thrown on - and is
    left as it is when the name does not start with the prefix. *)
Theorem inlineEnv_getter (prefix : string) (q1 q2 : ascii) (name : string) :
  is_quote q1 = true -> is_quote q2 = true ->
  name <> EmptyString ->
  all_chars (fun c => negb (Ascii.eqb c ")")) name = true ->
  inlineEnv prefix (getter_text q1 q2 name)
  = if startsWith name prefix then inlined_text name
    else Normal (getter_text q1 q2 name).
Proof.
  intros Hq1 Hq2 Hne Hname. unfold inlineEnv, String_replaceAll.
  rewrite (segments_whole envReg _ [(1, name)]
             (getter_text_nonempty q1 q2 name)
             (matcher_getter q1 q2 name Hq1 Hq2 Hne Hname)
             (search_envReg_end _)).
  rewrite replace_whole. unfold envReplacer, capture. cbn [m_captures m_matched].
  cbn [List.find fst snd Nat.eqb fmap option_fmap option_map].
  unfold inlined_text.
  destruct (startsWith name prefix); [|done].
  by destruct (Deno_env_get name).
Qed.

(** The match of the property shape: the whole text, with the name as
    the second capture. *)
Lemma matcher_process (name : string) :
  name <> EmptyString ->
  all_chars (fun c => is_word_char c || Ascii.eqb c "-") name = true ->
  matcher envReg Some
    {| endIndex := 0; remaining := process_text name; captures := [] |}
  = Some {| endIndex := String.length (process_text name);
            remaining := EmptyString; captures := [(2, name)] |}.
Proof.
  intros Hne Hname.
  assert (forall c, is_word_char c || Ascii.eqb c "-" = true ->
            charset_mem
              (CharClass false [ItemWord; ItemChar "_"; ItemChar "-"]) c
            = true) as Hclass.
  { intros c Hc. cbn [charset_mem existsb item_mem xorb].
    apply orb_true_iff in Hc as [->| ->]; [done|].
    by rewrite !orb_true_r. }
  destruct name as [|c0 name]; [done|]. clear Hne.
  cbn [all_chars] in Hname. apply andb_true_iff in Hname as [Hc0 Hname].
  replace (process_text (String c0 name))
    with ("process.env." +:+ String c0 (name +:+ EmptyString))
    by (unfold process_text; by rewrite append_empty_r).
  unfold envReg. rewrite matcher_Alt.
  rewrite matcher_lit_mismatch by reflexivity. cbn [or_else].
  erewrite matcher_lit by reflexivity. unfold advance.
  cbn [endIndex captures remaining].
  rewrite matcher_Group. unfold Plus. rewrite matcher_Seq.
  erewrite matcher_Chars_hit; [|reflexivity|by apply Hclass].
  cbn [endIndex captures remaining]. rewrite matcher_Star. cbn [remaining].
  rewrite (star_greedy_positions _ _ name _ _ _ EmptyString).
  - erewrite try_positions_end; [reflexivity|].
    cbn [endIndex captures remaining]. do 2 f_equal.
    + rewrite append_empty_r. simpl. lia.
    + do 2 f_equal. rewrite append_empty_r.
      replace (S (0 + String.length "process.env.") + String.length name
               - (0 + String.length "process.env."))
        with (String.length (String c0 name)) by (simpl; lia).
      by rewrite string_take_all.
  - clear -Hname Hclass. induction name as [|c name IH]; [done|].
    cbn [all_chars] in *. apply andb_true_iff in Hname as [Hc Hname].
    by rewrite (Hclass c Hc), (IH Hname).
  - done.
  - simpl. lia.
Qed.

Lemma process_text_nonempty (name : string) : process_text name <> EmptyString.
Proof. done. Qed.

(** X12.  The property shape, for every name.  For a non-empty name
    made of word characters and hyphens, the text [process.env.name] is
    replaced by [JSON.stringify] of the variable of that name when the
    name starts with the prefix, and left as it is otherwise; the
    hyphen belongs to the name. *)
Theorem inlineEnv_process (prefix name : string) :
  name <> EmptyString ->
  all_chars (fun c => is_word_char c || Ascii.eqb c "-") name = true ->
  inlineEnv prefix (process_text name)
  = if startsWith name prefix then inlined_text name
    else Normal (process_text name).
Proof.
  intros Hne Hname. unfold inlineEnv, String_replaceAll.
  rewrite (segments_whole envReg _ [(2, name)]
             (process_text_nonempty name)
             (matcher_process name Hne Hname)
             (search_envReg_end _)).
  rewrite replace_whole. unfold envReplacer, capture. cbn [m_captures m_matched].
  cbn [List.find fst snd Nat.eqb fmap option_fmap option_map].
  unfold inlined_text.
  destruct (startsWith name prefix); [|done].
  by destruct (Deno_env_get name).
Qed.

Lemma search_envReg_absent (code : string) : forall i : nat,
  occurs "Deno.env.get(" code = false ->
  occurs "process.env." code = false ->
  search envReg i code = None.
Proof.
  induction code as [|c tl IH]; intros i Hd Hp; [done|].
  cbn [occurs] in Hd, Hp.
  apply orb_false_iff in Hd as [Hd Hd'].
  apply orb_false_iff in Hp as [Hp Hp'].
  cbn [search]. unfold envReg at 1. rewrite matcher_Alt.
  rewrite !matcher_lit_mismatch by done. cbn [or_else].
  by rewrite IH.
Qed.

(** X13.  A text in which neither [Deno.env.get(] nor [process.env.]
    occurs is returned as it is, whatever the prefix and the
    environment. *)
Theorem inlineEnv_untouched (prefix code : string) :
  occurs "Deno.env.get(" code = false ->
  occurs "process.env." code = false ->
  inlineEnv prefix code = Normal code.
Proof.
  intros Hd Hp. unfold inlineEnv, String_replaceAll, segments.
  cbn [scan]. rewrite (search_envReg_absent code 0 Hd Hp).
  cbn [replace_segments Completion_bind]. by rewrite append_empty_r.
Qed.



End Rewriter.




(* ================================================================= *)
(** ** The [Loader] class *)

(** A run with the debug flag and a run without it, from the same state
    of the generated loader and from any two logs. *)
Lemma Loader_runs_agree {S A : Type} (inner : WasmLoader S) (m : Hook A) :
  forall (s : S) (log1 log2 : list string),
    let verbose := run (Loader_engine true inner) m (s, log1) in
    let quiet := run (Loader_engine false inner) m (s, log2) in
    verbose.1.1 = quiet.1.1
    /\ verbose.1.2.1 = quiet.1.2.1
    /\ verbose.2 = quiet.2
    /\ quiet.1.2.2 = log2
    /\ exists lines, verbose.1.2.2 = log1 ++ lines.
Proof.
  induction m as [c|specifier importer mode k IH|url requested k IH];
    intros s log1 log2; cbn zeta.
  - cbn [run fst snd]. repeat split; try done. exists []. by rewrite app_nil_r.
  - cbn [run Loader_engine engine_resolve]. unfold Loader_resolve.
    cbn [fst snd].
    destruct (wasm_resolve inner s specifier (Some importer) mode)
      as [[value|e] s'];
      match goal with
      | |- context [run (Loader_engine true inner) (k ?c) (s', ?l)] =>
          destruct (IH c s' l log2) as (H1 & H2 & H3 & H4 & lines & H5);
          destruct (run (Loader_engine true inner) (k c) (s', l))
            as [[cv [sv lv]] tv];
          destruct (run (Loader_engine false inner) (k c) (s', log2))
            as [[cq [sq lq]] tq]
      end; cbn [fst snd] in *; subst;
      (repeat split; try done); eexists; by rewrite <- !app_assoc.
  - cbn [run Loader_engine engine_load]. unfold Loader_load. cbn [fst snd].
    destruct (wasm_load inner s url requested) as [c s'].
    match goal with
    | |- context [run (Loader_engine true inner) (k ?c) (s', ?l)] =>
        destruct (IH c s' l log2) as (H1 & H2 & H3 & H4 & lines & H5);
        destruct (run (Loader_engine true inner) (k c) (s', l))
          as [[cv [sv lv]] tv];
        destruct (run (Loader_engine false inner) (k c) (s', log2))
          as [[cq [sq lq]] tq]
    end; cbn [fst snd] in *; subst;
    (repeat split; try done); eexists; by rewrite <- !app_assoc.
Qed.

(** X16.  The debug flag of the loader only adds lines to the log: a
    hook run against the loader returns the same completion, leaves the
    generated loader in the same state and makes the same calls with
    the flag set as without it; without the flag the log is left as it
    was, and with it the earlier lines are kept.  The plugin leaves the
    flag off unless its option [debug] is set. *)
Theorem Loader_debug_transparent {S A : Type}
    (inner : WasmLoader S) (m : Hook A) (s : S) (log : list string) :
  let quiet := run (Loader_engine false inner) m (s, log) in
  let verbose := run (Loader_engine true inner) m (s, log) in
  verbose.1.1 = quiet.1.1
  /\ verbose.1.2.1 = quiet.1.2.1
  /\ verbose.2 = quiet.2
  /\ quiet.1.2.2 = log
  /\ (exists lines, verbose.1.2.2 = log ++ lines)
  /\ (forall options : DenoPluginOptions,
        debug options = None -> Workspace_debug options = false).
Proof.
  cbn zeta.
  destruct (Loader_runs_agree inner m s log log) as (H1 & H2 & H3 & H4 & H5).
  repeat split; try done. unfold Workspace_debug. by intros options ->.
Qed.

(* ================================================================= *)
(** ** [pathWithRoot] and [configResolved] *)

Section Paths.
Context `{PathApi}.
Hypothesis cwd_absolute : isAbsolute cwd = true.
Hypothesis join_absolute : forall (first : string) (rest : list string),
  isAbsolute first = true -> isAbsolute (join (first :: rest)) = true.

Lemma pathWithRoot_is_absolute (fileOrDir : string) (root : option string) :
  isAbsolute (pathWithRoot fileOrDir root) = true.
Proof using cwd_absolute join_absolute.
  unfold pathWithRoot.
  destruct (isAbsolute fileOrDir) eqn:Hfile; [done|].
  destruct root as [r|]; [|by apply join_absolute].
  destruct (isAbsolute r) eqn:Hroot; by apply join_absolute.
Qed.

Lemma pathWithRoot_fixed (fileOrDir : string) (root : option string) :
  isAbsolute fileOrDir = true -> pathWithRoot fileOrDir root = fileOrDir.
Proof. unfold pathWithRoot. by intros ->. Qed.

(** X17.  With a path API whose working directory is absolute and whose
    [join] keeps a path absolute when its first segment is:
    [pathWithRoot] always returns an absolute path, returns an absolute
    path it is given unchanged whatever the root, and applied to its
    own result changes nothing. *)
Theorem pathWithRoot_absolute (fileOrDir : string) (root root' : option string) :
  isAbsolute (pathWithRoot fileOrDir root) = true
  /\ (isAbsolute fileOrDir = true -> pathWithRoot fileOrDir root = fileOrDir)
  /\ pathWithRoot (pathWithRoot fileOrDir root) root'
     = pathWithRoot fileOrDir root.
Proof using cwd_absolute join_absolute.
  refine (conj (pathWithRoot_is_absolute _ _)
            (conj (pathWithRoot_fixed _ _) _)).
  apply pathWithRoot_fixed, pathWithRoot_is_absolute.
Qed.

(** X18.  [fresh] fills the options it is not given with its defaults,
    and [configResolved] makes the two directories absolute and leaves
    the other fields alone; run again, with whatever root, it changes
    nothing. *)
Theorem configResolved_idempotent
    (config : option FreshOptions) (root root' : option string) :
  let fConfig := configResolved root (fresh_config config) in
  isAbsolute (islandsDir fConfig) = true
  /\ isAbsolute (routeDir fConfig) = true
  /\ serverEntry fConfig = default "main.ts" (config ≫= opt_serverEntry)
  /\ ignore fConfig = default [] (config ≫= opt_ignore)
  /\ configResolved root' fConfig = fConfig.
Proof using cwd_absolute join_absolute.
  cbn zeta. unfold configResolved. cbn [islandsDir routeDir serverEntry ignore].
  rewrite !pathWithRoot_is_absolute.
  by rewrite !(pathWithRoot_fixed _ root') by apply pathWithRoot_is_absolute.
Qed.

End Paths.

(* ================================================================= *)
(** ** Load hook with inlining *)

(** X19.  With a non-empty [publicEnvVarPrefix] and the requested type
    [Default], a module the loader returns comes back as text: what
    [inlineEnv] makes of the decoded code, with the loader derived from
    the media type, after one call of the loader; what the replacement
    throws, the hook throws. *)
Theorem onLoad_inlining `{Host} {S : Type} (E : Engine S)
    (options : DenoPluginOptions) (args : OnLoadArgs) (s s' : S)
    (url specifier prefix : string) (mediaType : Z) (code : list Byte.byte) :
  url_of_path (load_path args) = Normal url ->
  getModuleType (load_path args) (load_with args) = Default ->
  engine_load E s url Default
  = (Normal (ModuleLoadResponse specifier mediaType code), s') ->
  publicEnvVarPrefix options = Some prefix -> prefix <> EmptyString ->
  run E (onLoad options args) s
  = (match inlineEnv prefix (TextDecoder_decode code) with
     | Normal text =>
         Normal (Some {| contents := ContentsText text;
                         loader := mediaToLoader mediaType |})
     | Throw e => Throw e
     end, s', [CallLoad url Default]).
Proof.
  intros Hurl Hty Hload Hprefix Hne.
  rewrite (onLoad_inlines options E args s s' url specifier prefix mediaType
             code Hurl Hty Hload Hprefix Hne).
  by destruct (inlineEnv prefix (TextDecoder_decode code)).
Qed.

(* ================================================================= *)
(** ** The further properties on the sample host *)

Lemma onResolve_delegates_witness :
  (run sample_engine
     (onResolve (H := sample_host) sample_externals (resolve_args "./a.ts"))
     0).2
  = [CallResolve "./a.ts" "https://example.com/mod.ts" ModeImport].
Proof.
  refine (proj1 (onResolve_delegates (H := sample_host) sample_externals
                   sample_engine (resolve_args "./a.ts") 0 _)).
  vm_compute. reflexivity.
Defined.

Lemma onResolve_conversion_failure_witness :
  (run (const_engine (Normal "file:relative.ts") (Throw (OtherValue "unused")))
     (onResolve (H := sample_host) sample_externals (resolve_args "./r.ts"))
     0).1.1
  = Throw (ErrorObject "TypeError" "URL must be a file URL").
Proof.
  apply (onResolve_conversion_failure (H := sample_host) sample_externals
           (const_engine (Normal "file:relative.ts")
                         (Throw (OtherValue "unused")))
           (resolve_args "./r.ts") 0 1 "file:relative.ts"
           (ErrorObject "TypeError" "URL must be a file URL"));
    vm_compute; reflexivity.
Defined.

Lemma onResolve_configured_external_witness :
  exists compiled,
    compile_externals (Some ["@foo/*"; "lodash"]) = Some compiled
    /\ run sample_engine
         (onResolve (H := sample_host) compiled (resolve_args "@foo/bar")) 0
       = (Normal (Some (external_result "@foo/bar")), 0, []).
Proof.
  apply (onResolve_configured_external (H := sample_host) sample_engine
           ["@foo/*"; "lodash"] "@foo/*" (resolve_args "@foo/bar") 0).
  - apply list_elem_of_here.
  - vm_compute. reflexivity.
Defined.

Lemma resolve_then_load_passthrough_witness :
  exists r,
    (run sample_engine
       (onResolve (H := sample_host) sample_externals (resolve_args "./a.ts"))
       0).1.1 = Normal (Some r)
    /\ result_path r = "https://example.com/a.ts"
    /\ forall (namespace : string) (attributes : gmap string string)
              (s1 : nat),
         (run sample_engine
            (onLoad (H := sample_host) (sample_options (Some "FOO_"))
               {| load_path := result_path r; load_namespace := namespace;
                  load_with := attributes |}) s1).2
         = [CallLoad "https://example.com/a.ts"
              (getModuleType "https://example.com/a.ts" attributes)].
Proof.
  apply (resolve_then_load_passthrough (H := sample_host) sample_externals
           (sample_options (Some "FOO_")) sample_engine
           (resolve_args "./a.ts") 0 1 "https://example.com/a.ts").
  - vm_compute. reflexivity.
  - vm_compute. reflexivity.
  - right. left. vm_compute. reflexivity.
Defined.

Lemma resolve_then_load_file_witness :
  (run sample_engine
     (onLoad (H := sample_host) (sample_options None)
             (load_args "/src/local.ts" ∅)) 1).2
  = [CallLoad "file:///src/local.ts" Default].
Proof.
  refine (proj2 (resolve_then_load_file (H := sample_host) sample_externals
                   (sample_options None) sample_engine
                   (resolve_args "./local.ts") 0 1
                   "file:///src/local.ts" "/src/local.ts" _ _ _ _ _ _) ∅ 1);
    vm_compute; reflexivity.
Defined.

Lemma onLoad_no_module_witness :
  run sample_engine
    (onLoad (H := sample_host) (sample_options (Some "FOO_"))
            (load_args "relative/x.ts" ∅)) 0
  = (Throw (ErrorObject "TypeError" "Path must be absolute"), 0, []).
Proof.
  apply (onLoad_no_module (H := sample_host) (sample_options (Some "FOO_"))
           sample_engine (load_args "relative/x.ts" ∅) 0).
  vm_compute. reflexivity.
Defined.

Lemma onLoad_inlining_witness :
  run (const_engine (Throw (OtherValue "unused"))
         (Normal (ModuleLoadResponse "file:///src/env.ts" MediaType.TypeScript
                    (list_byte_of_string (getter_call "FOO_BAR")))))
    (onLoad (H := sample_host) (sample_options (Some "FOO_"))
            (load_args "/src/env.ts" ∅)) 0
  = (Normal (Some {| contents := ContentsText (QuoteJSONString "baz");
                     loader := L_ts |}), 1,
     [CallLoad "file:///src/env.ts" Default]).
Proof.
  rewrite (onLoad_inlining (H := sample_host)
             (const_engine (Throw (OtherValue "unused"))
                (Normal (ModuleLoadResponse "file:///src/env.ts"
                           MediaType.TypeScript
                           (list_byte_of_string (getter_call "FOO_BAR")))))
             (sample_options (Some "FOO_"))
             (load_args "/src/env.ts" ∅) 0 1 "file:///src/env.ts"
             "file:///src/env.ts" "FOO_" MediaType.TypeScript
             (list_byte_of_string (getter_call "FOO_BAR")));
    [|vm_compute; reflexivity ..|discriminate].
  vm_compute. reflexivity.
Defined.

Lemma getModuleType_frame_witness :
  getModuleType "data.json" (<["lang" := "en"]> ∅) = getModuleType "data.json" ∅.
Proof.
  by apply (getModuleType_frame "data.json" "lang" "en" ∅).
Defined.

Lemma externalToRegex_exact_witness :
  RegExp_test (glob_regex "a.b") "axb" = true <-> "axb" = "a.b".
Proof.
  apply (externalToRegex_exact "a.b" "axb" (glob_regex "a.b"));
    vm_compute; reflexivity.
Defined.

Lemma externalToRegex_prefix_witness :
  RegExp_test (glob_regex "@foo/*") "@foo/bar" = true
  <-> exists rest, "@foo/bar" = "@foo/" +:+ rest /\ one_line rest = true.
Proof.
  apply (externalToRegex_prefix "@foo/" "@foo/bar" (glob_regex "@foo/*"));
    vm_compute; reflexivity.
Defined.

Lemma inlineEnv_getter_witness :
  inlineEnv (H := sample_host) "FOO_" (getter_text "'" dquote_char "FOO_BAR")
  = Normal (QuoteJSONString "baz").
Proof.
  rewrite (inlineEnv_getter (H := sample_host) "FOO_" "'" dquote_char "FOO_BAR");
    [|vm_compute; reflexivity ..|discriminate|vm_compute; reflexivity].
  vm_compute. reflexivity.
Defined.

Lemma inlineEnv_process_witness :
  inlineEnv (H := sample_host) "FOO_" (process_text "FOO_BAR")
  = Normal (QuoteJSONString "baz")
  /\ inlineEnv (H := sample_host) "FOO_" (process_text "NODE_ENV")
     = Normal (process_text "NODE_ENV").
Proof.
  split.
  - rewrite (inlineEnv_process (H := sample_host) "FOO_" "FOO_BAR");
      [|discriminate|vm_compute; reflexivity].
    vm_compute. reflexivity.
  - rewrite (inlineEnv_process (H := sample_host) "FOO_" "NODE_ENV");
      [|discriminate|vm_compute; reflexivity].
    vm_compute. reflexivity.
Defined.

Lemma inlineEnv_untouched_witness :
  inlineEnv (H := sample_host) "FOO_" "export const answer = 42;"
  = Normal "export const answer = 42;".
Proof.
  apply (inlineEnv_untouched (H := sample_host) "FOO_"
           "export const answer = 42;"); vm_compute; reflexivity.
Defined.


Lemma sample_join_absolute (first : string) (rest : list string) :
  isAbsolute (PathApi := sample_paths) first = true ->
  isAbsolute (PathApi := sample_paths)
    (join (PathApi := sample_paths) (first :: rest)) = true.
Proof.
  unfold isAbsolute, join, sample_paths.
  intros [tl ->]%startsWith_spec. by destruct rest.
Qed.

Lemma pathWithRoot_absolute_witness :
  pathWithRoot (H := sample_paths)
    (pathWithRoot (H := sample_paths) "islands" (Some "demo")) None
  = "/work/demo/islands".
Proof.
  rewrite (proj2 (proj2 (pathWithRoot_absolute (H := sample_paths)
                           eq_refl sample_join_absolute
                           "islands" (Some "demo") None))).
  reflexivity.
Defined.

Lemma configResolved_idempotent_witness :
  configResolved (H := sample_paths) (Some "/other")
    (configResolved (H := sample_paths) (Some "demo") (fresh_config None))
  = {| serverEntry := "main.ts"; islandsDir := "/work/demo/islands";
       routeDir := "/work/demo/routes"; ignore := [] |}.
Proof.
  rewrite (proj2 (proj2 (proj2 (proj2
             (configResolved_idempotent (H := sample_paths)
                eq_refl sample_join_absolute None (Some "demo")
                (Some "/other")))))).
  reflexivity.
Defined.
